(** * Drift benchmark: validators, drift scorer and evolution strategies

    A shallow embedding of the TypeScript sources
      - [src/llm/client.ts]            (generate, with transport retries)
      - [src/validators/vocabulary.ts] (validateVocabulary)
      - [src/validators/template.ts]   (validateTemplate)
      - [src/validators/style.ts]      (validateStyle)
      - [src/validators/crossref.ts]   (validateCrossRefs)
      - [src/validators/atypicality.ts](validateAtypicality)
      - [src/validators/index.ts]      (calculateDrift)
      - [src/strategies/*.ts]          (incremental, repair, regeneration)
      - [src/engine.ts]                (runExperiment)

    JavaScript strings are sequences of UTF-16 code units; a code unit is
    an [N].  JavaScript numbers that only ever hold integers are [Z]; the
    one genuinely fractional quantity (the short-sentence ratio) is an
    IEEE-754 binary64 value, computed with the Standard Library's
    [SpecFloat] operations. *)

From Stdlib Require Import ZArith NArith List Ascii String Bool Lia.
From Stdlib Require Import Floats.SpecFloat.
From stdpp Require Import base list gmap.

Set Default Proof Using "Type".

(** ** Code units and strings *)

Module JS.

Abbreviation char := N.
Abbreviation jsstring := (list N).

(** An ASCII literal as a JavaScript string. *)
Definition js (s : string) : jsstring :=
  map N_of_ascii (list_ascii_of_string s).
Arguments js s%_string.

Definition chr (a : ascii) : char := N_of_ascii a.
Arguments chr a%_char.

Definition in_range (lo hi c : char) : bool := (lo <=? c)%N && (c <=? hi)%N.
Arguments in_range (lo hi c)%_N.

(** LineTerminator: LF, CR, LS, PS. *)
Definition isLineTerminator (c : char) : bool :=
  (c =? 10)%N || (c =? 13)%N || (c =? 8232)%N || (c =? 8233)%N.

(** The class [\s] (and the characters removed by [trim]): WhiteSpace
    together with LineTerminator. *)
Definition isWhiteSpace (c : char) : bool :=
  in_range 9 13 c || (c =? 32)%N || (c =? 160)%N || (c =? 5760)%N
  || in_range 8192 8202 c || (c =? 8232)%N || (c =? 8233)%N
  || (c =? 8239)%N || (c =? 8287)%N || (c =? 12288)%N || (c =? 65279)%N.

(** The class [\d]. *)
Definition isDigit (c : char) : bool := in_range 48 57 c.

Definition isLower (c : char) : bool := in_range 97 122 c.
Definition isUpper (c : char) : bool := in_range 65 90 c.

(** The class [\w]: letters, digits and the underscore. *)
Definition isWordChar (c : char) : bool :=
  isLower c || isUpper c || isDigit c || (c =? 95)%N.

(** The class [.] without the [s] flag. *)
Definition isDot (c : char) : bool := negb (isLineTerminator c).

(** [Canonicalize] of a pattern under the [i] flag (no [u] flag).  Outside
    ASCII the canonical form is never an ASCII character, so against the
    ASCII patterns of this program only the mapping a-z to A-Z matters. *)
Definition canonicalize (c : char) : char :=
  if isLower c then (c - 32)%N else c.

(** [String.prototype.toUpperCase] on one code unit; the program applies
    it to characters of [\w] words only, which are ASCII. *)
Definition toUpperCase1 (c : char) : char := canonicalize c.

Definition char_eqb (a b : char) : bool := (a =? b)%N.
Definition char_eqb_i (a b : char) : bool :=
  (canonicalize a =? canonicalize b)%N.

Fixpoint takeWhile (p : char -> bool) (s : jsstring) : jsstring :=
  match s with
  | c :: s' => if p c then c :: takeWhile p s' else []
  | [] => []
  end.

Fixpoint dropWhile (p : char -> bool) (s : jsstring) : jsstring :=
  match s with
  | c :: s' => if p c then dropWhile p s' else s
  | [] => []
  end.

(** [s.slice(a, b)] for [0 <= a], [0 <= b]. *)
Definition slice (a b : nat) (s : jsstring) : jsstring :=
  take (b - a) (drop a s).

(** [s.trim()]. *)
Definition trim (s : jsstring) : jsstring :=
  rev (dropWhile isWhiteSpace (rev (dropWhile isWhiteSpace s))).

(** [s.startsWith(t)]. *)
Fixpoint startsWith (t s : jsstring) : bool :=
  match t, s with
  | [], _ => true
  | a :: t', b :: s' => char_eqb a b && startsWith t' s'
  | _ :: _, [] => false
  end.

Definition jsstring_eqb (a b : jsstring) : bool :=
  bool_decide (a = b).

(** The one-character classes [#] and [\.] of the heading patterns. *)
Abbreviation isHash := (char_eqb (chr "#")).
Abbreviation isPeriod := (char_eqb (chr ".")).

End JS.
Export JS.

(** ** Regular expressions

    The fragment of ECMAScript patterns the program uses, with the
    backtracking semantics of the language: a matcher takes the current
    state and a continuation, and the first successful alternative wins. *)

Module Regex.

Inductive regex : Type :=
| RChar (p : char -> bool)                       (* one character of a class *)
| REmpty                                         (* the empty pattern *)
| RSeq (r1 r2 : regex)                           (* r1 r2 *)
| ROpt (r : regex)                               (* (?:r)?  greedy *)
| RRep (p : char -> bool) (lo : nat) (hi : option nat)
                                                 (* class{lo,hi}, greedy *)
| RBol                                           (* ^ with the m flag *)
| REol                                           (* $ with the m flag *)
| RWordB                                         (* \b *)
| RGroup (r : regex).                            (* ( r ) *)

(** Matcher state: the character before the current position, the input
    from the current position on, and the captures closed so far. *)
Record mstate : Type := MState {
  m_prev : option char;
  m_rest : jsstring;
  m_caps : list jsstring
}.

Definition cont := mstate -> option mstate.

Definition hi_allows (hi : option nat) : bool :=
  match hi with Some 0 => false | _ => true end.

Definition hi_pred (hi : option nat) : option nat :=
  match hi with Some n => Some (pred n) | None => None end.

(** Greedy repetition of a character class: take one more character first,
    and fall back to stopping here when the rest of the pattern fails. *)
Fixpoint rep (p : char -> bool) (lo : nat) (hi : option nat)
    (prv : option char) (s : jsstring) (caps : list jsstring) (k : cont)
    : option mstate :=
  let stop := match lo with
              | 0 => k (MState prv s caps)
              | S _ => None
              end in
  match s with
  | c :: s' =>
      if p c && hi_allows hi then
        match rep p (pred lo) (hi_pred hi) (Some c) s' caps k with
        | Some r => Some r
        | None => stop
        end
      else stop
  | [] => stop
  end.

Definition at_bol (st : mstate) : bool :=
  match m_prev st with
  | None => true
  | Some c => isLineTerminator c
  end.

Definition at_eol (st : mstate) : bool :=
  match m_rest st with
  | [] => true
  | c :: _ => isLineTerminator c
  end.

Definition at_word_boundary (st : mstate) : bool :=
  let a := match m_prev st with Some c => isWordChar c | None => false end in
  let b := match m_rest st with c :: _ => isWordChar c | [] => false end in
  xorb a b.

Fixpoint rmatch (r : regex) (st : mstate) (k : cont) : option mstate :=
  match r with
  | RChar p =>
      match m_rest st with
      | c :: s' => if p c then k (MState (Some c) s' (m_caps st)) else None
      | [] => None
      end
  | REmpty => k st
  | RSeq r1 r2 => rmatch r1 st (fun st' => rmatch r2 st' k)
  | ROpt r1 =>
      match rmatch r1 st k with
      | Some e => Some e
      | None => k st
      end
  | RRep p lo hi => rep p lo hi (m_prev st) (m_rest st) (m_caps st) k
  | RBol => if at_bol st then k st else None
  | REol => if at_eol st then k st else None
  | RWordB => if at_word_boundary st then k st else None
  | RGroup r1 =>
      rmatch r1 st (fun st' =>
        k (MState (m_prev st') (m_rest st')
             (m_caps st' ++
              [take (length (m_rest st) - length (m_rest st')) (m_rest st)])))
  end.

(** One match: [index] is [match.index], [matched] is [match[0]],
    [groups] are [match[1]], [match[2]], ... *)
Record Match : Type := MkMatch {
  index : nat;
  matched : jsstring;
  groups : list jsstring
}.

(** Try the pattern at the current position only. *)
Definition match_here (r : regex) (prv : option char) (s : jsstring)
    : option mstate :=
  rmatch r (MState prv s []) Some.

Definition match_len (s : jsstring) (e : mstate) : nat :=
  length s - length (m_rest e).

Definition mk_match (i : nat) (s : jsstring) (e : mstate) : Match :=
  MkMatch i (take (match_len s e) s) (m_caps e).

(** [re.exec(text)] for a pattern without the [g] flag (or the first
    call with it): the leftmost position at which the pattern matches. *)
Fixpoint search (r : regex) (prv : option char) (s : jsstring) (i : nat)
    : option Match :=
  match match_here r prv s with
  | Some e => Some (mk_match i s e)
  | None =>
      match s with
      | [] => None
      | c :: s' => search r (Some c) s' (S i)
      end
  end.

Definition exec (r : regex) (text : jsstring) : option Match :=
  search r None text 0.

(** [re.test(text)]. *)
Definition test (r : regex) (text : jsstring) : bool :=
  match exec r text with Some _ => true | None => false end.

(** All matches of a pattern with the [g] flag, as [text.match(re)] and
    the loop [while ((m = re.exec(text)) !== null)] enumerate them: after
    a match the search resumes at its end.  [skip] counts the characters
    of the last match still to be passed over.  After an empty match the
    search resumes one position further (as [String.prototype.match]
    does); no pattern the program runs in a loop matches the empty
    string. *)
Fixpoint scan (r : regex) (prv : option char) (s : jsstring) (i : nat)
    (skip : nat) : list Match :=
  match s with
  | [] =>
      match skip with
      | 0 => match match_here r prv [] with
             | Some e => [mk_match i [] e]
             | None => []
             end
      | S _ => []
      end
  | c :: s' =>
      match skip with
      | S n => scan r (Some c) s' (S i) n
      | 0 =>
          match match_here r prv s with
          | Some e => mk_match i s e :: scan r (Some c) s' (S i) (pred (match_len s e))
          | None => scan r (Some c) s' (S i) 0
          end
      end
  end.

Definition matchAll (r : regex) (text : jsstring) : list Match :=
  scan r None text 0 0.

(** [text.split(re)] for a separator pattern without capture groups:
    [acc] holds (reversed) the piece being collected. *)
Fixpoint split_go (r : regex) (prv : option char) (s : jsstring)
    (skip : nat) (acc : jsstring) : list jsstring :=
  match s with
  | [] => [rev acc]
  | c :: s' =>
      match skip with
      | S n => split_go r (Some c) s' n acc
      | 0 =>
          match match_here r prv s with
          | Some e =>
              match match_len s e with
              | 0 =>
                  match acc with
                  | [] => split_go r (Some c) s' 0 [c]
                  | _ :: _ => rev acc :: split_go r (Some c) s' 0 [c]
                  end
              | S n => rev acc :: split_go r (Some c) s' n []
              end
          | None => split_go r (Some c) s' 0 (c :: acc)
          end
      end
  end.

Definition split (r : regex) (text : jsstring) : list jsstring :=
  match text with
  | [] => match match_here r None [] with
          | Some _ => []
          | None => [[]]
          end
  | _ :: _ => split_go r None text 0 []
  end.

(** A literal pattern, as [new RegExp(lit)] compiles a string without
    metacharacters; with the [i] flag each character is compared after
    canonicalization. *)
Fixpoint literal (ci : bool) (lit : jsstring) : regex :=
  match lit with
  | [] => REmpty
  | c :: lit' =>
      RSeq (RChar (fun x => if ci then char_eqb_i x c else char_eqb x c))
           (literal ci lit')
  end.

Definition rseq (rs : list regex) : regex := foldr RSeq REmpty rs.

Definition oneOf (cs : jsstring) (c : char) : bool :=
  existsb (char_eqb c) cs.

(** The character before the position reached after consuming [a]. *)
Fixpoint lastor (prv : option char) (a : jsstring) : option char :=
  match a with
  | [] => prv
  | c :: a' => lastor (Some c) a'
  end.

(** [n] repetitions respect the upper bound [hi]. *)
Definition hi_ok (hi : option nat) (n : nat) : Prop :=
  match hi with
  | Some h => n <= h
  | None => True
  end.

(** The next character, if any, is outside the class [p]. *)
Definition stops (p : char -> bool) (s : jsstring) : bool :=
  match s with
  | [] => true
  | c :: _ => negb (p c)
  end.

(** A pattern whose matches never contain the start of another match. *)
Definition NoOverlap (r : regex) : Prop :=
  forall prv s e,
    match_here r prv s = Some e ->
    forall pre suf,
      s = pre ++ suf ->
      0 < length pre < match_len s e ->
      match_here r (lastor prv pre) suf = None.

End Regex.
Export Regex.

(** ** IEEE-754 binary64 arithmetic for the one fractional quantity *)

Module Double.

Definition prec : Z := 53.
Definition emax : Z := 1024.

Definition double := spec_float.

(** The double holding a non-negative integer. *)
Definition ofZ (z : Z) : double :=
  match z with
  | Zpos _ => binary_normalize prec emax z 0 false
  | _ => S754_zero false
  end.

Definition div (a b : double) : double := SFdiv prec emax a b.
Definition sub (a b : double) : double := SFsub prec emax a b.
Definition mul (a b : double) : double := SFmul prec emax a b.
Definition ltb (a b : double) : bool := SFltb a b.

(** [Math.ceil] of a finite double, as the integer it denotes. *)
Definition ceil (x : double) : Z :=
  match x with
  | S754_finite sg m e =>
      let mag := Zpos m in
      match e with
      | Zneg pe =>
          let d := Z.pow_pos 2 pe in
          if sg then Z.opp (mag / d) else Z.opp ((Z.opp mag) / d)
      | _ => let v := (mag * 2 ^ e)%Z in if sg then Z.opp v else v
      end
  | _ => 0%Z
  end.

End Double.

(** ** I1: controlled vocabulary (src/validators/vocabulary.ts) *)

Module Vocabulary.

Definition VOCABULARY : list jsstring := map js [
  "Zero Trust"; "MFA"; "Bastion Host"; "RBAC";
  "Data At Rest"; "Data In Transit"; "Least Privilege"; "Air Gap";
  "SLA"; "Biometric"; "Cryptographic Salt"; "PKI";
  "Endpoint Telemetry"; "SIEM"; "SOC2"; "GDPR";
  "OIDC"; "SAML"; "Kill Chain"; "Honeypot"
]%string.

Record Detail : Type := MkDetail {
  term : jsstring;
  count : Z;
  expected : Z
}.

Record VocabularyResult : Type := MkResult {
  violations : Z;
  details : list Detail
}.

(** [new RegExp(term, 'gi')]: the terms hold letters, digits and spaces
    only, so each compiles to its literal character sequence. *)
Definition termRegex (t : jsstring) : regex := literal true t.

(** [text.match(regex)?.length ?? 0] *)
Definition countMatches (t text : jsstring) : Z :=
  Z.of_nat (length (matchAll (termRegex t) text)).

(** Body of the [for (const term of VOCABULARY)] loop. *)
Definition step (text : jsstring) (acc : VocabularyResult) (t : jsstring)
    : VocabularyResult :=
  let count := countMatches t text in
  if negb (count =? 1)%Z then
    MkResult (violations acc + Z.abs (count - 1))
             (details acc ++ [MkDetail t count 1])
  else acc.

Definition validateVocabulary (text : jsstring) : VocabularyResult :=
  foldl (step text) (MkResult 0 []) VOCABULARY.

End Vocabulary.

(** ** I2: section template (src/validators/template.ts) *)

Module Template.

Definition REQUIRED_SUBSECTIONS : list jsstring :=
  map js ["Purpose"; "Scope"; "Directives"; "Exceptions"; "Enforcement"]%string.

Record Detail : Type := MkDetail {
  section : jsstring;
  missing : list jsstring;
  wrongOrder : bool
}.

Record TemplateResult : Type := MkResult {
  violations : Z;
  details : list Detail
}.

Record Section : Type := MkSection {
  name : jsstring;
  startIndex : nat;
  endIndex : nat
}.

(** [/^#{1,2}\s+\d+\.\s+(.+)$/gm] *)
Definition sectionRegex : regex := rseq [
  RBol;
  RRep (char_eqb (chr "#")) 1 (Some 2);
  RRep isWhiteSpace 1 None;
  RRep isDigit 1 None;
  RChar (char_eqb (chr "."));
  RRep isWhiteSpace 1 None;
  RGroup (RRep isDot 1 None);
  REol
].

(** [new RegExp(`###\\s+${sub}`, 'i')] *)
Definition subRegex (sub : jsstring) : regex :=
  RSeq (literal true (js "###"))
       (RSeq (RRep isWhiteSpace 1 None) (literal true sub)).

(** The [while ((match = sectionRegex.exec(text)) !== null)] loop. *)
Definition findSections (text : jsstring) : list Section :=
  map (fun m => MkSection (default [] (groups m !! 0)) (index m) (length text))
      (matchAll sectionRegex text).

(** [sections[i].endIndex = sections[i + 1].startIndex] for all but the
    last section. *)
Fixpoint setEndIndices (sections : list Section) : list Section :=
  match sections with
  | s1 :: ((s2 :: _) as rest) =>
      MkSection (name s1) (startIndex s1) (startIndex s2) :: setEndIndices rest
  | _ => sections
  end.

(** Body of [for (const sub of REQUIRED_SUBSECTIONS)]: the state is
    [(missing, foundIndices)]. *)
Definition subStep (sectionText : jsstring)
    (acc : list jsstring * list nat) (sub : jsstring)
    : list jsstring * list nat :=
  match exec (subRegex sub) sectionText with
  | None => (acc.1 ++ [sub], acc.2)
  | Some subMatch => (acc.1, acc.2 ++ [index subMatch])
  end.

(** [arr.every((val, i, arr) => i === 0 || val > arr[i - 1])] *)
Fixpoint everyIncreasing (arr : list nat) : bool :=
  match arr with
  | a :: ((b :: _) as rest) => (a <? b) && everyIncreasing rest
  | _ => true
  end.

(** Body of [for (const section of sections)]. *)
Definition sectionStep (text : jsstring) (acc : TemplateResult)
    (sec : Section) : TemplateResult :=
  let sectionText := slice (startIndex sec) (endIndex sec) text in
  let '(missing, foundIndices) :=
    foldl (subStep sectionText) ([], []) REQUIRED_SUBSECTIONS in
  let wrongOrder :=
    (1 <? length foundIndices) && negb (everyIncreasing foundIndices) in
  if (0 <? length missing) || wrongOrder then
    MkResult
      (violations acc + Z.of_nat (length missing) + (if wrongOrder then 1 else 0))
      (details acc ++ [MkDetail (name sec) missing wrongOrder])
  else acc.

Definition validateTemplate (text : jsstring) : TemplateResult :=
  let sections := setEndIndices (findSections text) in
  foldl (sectionStep text) (MkResult 0 []) sections.

End Template.

(** ** I3: sentence length (src/validators/style.ts) *)

Module Style.

Definition MAX_WORDS : Z := 25.
Definition SHORT_THRESHOLD : Z := 12.
(** The double nearest to 0.7, that is 0x3FE6666666666666. *)
Definition SHORT_RATIO_TARGET : Double.double :=
  S754_finite false 6305039478318694 (-53).

Record Detail : Type := MkDetail {
  sentence : jsstring;
  wordCount : Z
}.

Record StyleResult : Type := MkResult {
  violations : Z;
  totalSentences : Z;
  longSentences : Z;
  shortRatio : Double.double;
  details : list Detail
}.

(** [text.split(/[.!?]+/).map(s => s.trim())
         .filter(s => s.length > 0 && !s.startsWith('#'))] *)
Definition sentencesOf (text : jsstring) : list jsstring :=
  List.filter (fun s => (0 <? length s) && negb (startsWith (js "#") s))
    (map trim (split (RRep (oneOf (js ".!?")) 1 None) text)).

(** [sentence.split(/\s+/).length] *)
Definition countWords (s : jsstring) : Z :=
  Z.of_nat (length (split (RRep isWhiteSpace 1 None) s)).

(** Loop state: [details], [longSentences], [shortSentences]. *)
Record Acc : Type := MkAcc {
  acc_details : list Detail;
  acc_long : Z;
  acc_short : Z
}.

(** Body of [for (const sentence of sentences)]. *)
Definition step (acc : Acc) (s : jsstring) : Acc :=
  let wordCount := countWords s in
  let acc1 :=
    if (wordCount >? MAX_WORDS)%Z then
      MkAcc (acc_details acc ++ [MkDetail (slice 0 50 s ++ js "...") wordCount])
            (acc_long acc + 1) (acc_short acc)
    else acc in
  if (wordCount <=? SHORT_THRESHOLD)%Z then
    MkAcc (acc_details acc1) (acc_long acc1) (acc_short acc1 + 1)
  else acc1.

(** [Math.ceil((SHORT_RATIO_TARGET - shortRatio) * 10)] *)
Definition penalty (shortRatio : Double.double) : Z :=
  Double.ceil
    (Double.mul (Double.sub SHORT_RATIO_TARGET shortRatio) (Double.ofZ 10)).

Definition validateStyle (text : jsstring) : StyleResult :=
  let sentences := sentencesOf text in
  let acc := foldl step (MkAcc [] 0 0) sentences in
  let n := Z.of_nat (length sentences) in
  let shortRatio :=
    if (n >? 0)%Z then Double.div (Double.ofZ (acc_short acc)) (Double.ofZ n)
    else Double.ofZ 1 in
  let violations := acc_long acc in
  let violations :=
    if Double.ltb shortRatio SHORT_RATIO_TARGET
    then (violations + penalty shortRatio)%Z
    else violations in
  MkResult violations n (acc_long acc) shortRatio (acc_details acc).

End Style.

(** ** I4: cross-references (src/validators/crossref.ts) *)

Module CrossRef.

Record Detail : Type := MkDetail {
  reference : jsstring;
  targetSection : jsstring;
  exists_ : bool
}.

Record CrossRefResult : Type := MkResult {
  violations : Z;
  details : list Detail
}.

(** [\d+(?:\.\d+)?] *)
Definition numberPattern : regex :=
  RSeq (RRep isDigit 1 None)
       (ROpt (RSeq (RChar (char_eqb (chr "."))) (RRep isDigit 1 None))).

(** [/^#{1,2}\s+(\d+(?:\.\d+)?)\.\s+/gm] *)
Definition sectionRegex : regex := rseq [
  RBol;
  RRep (char_eqb (chr "#")) 1 (Some 2);
  RRep isWhiteSpace 1 None;
  RGroup numberPattern;
  RChar (char_eqb (chr "."));
  RRep isWhiteSpace 1 None
].

(** [/[Ss]ee\s+[Ss]ection\s+(\d+(?:\.\d+)?)/g] *)
Definition refRegex : regex := rseq [
  RChar (oneOf (js "Ss"));
  literal false (js "ee");
  RRep isWhiteSpace 1 None;
  RChar (oneOf (js "Ss"));
  literal false (js "ection");
  RRep isWhiteSpace 1 None;
  RGroup numberPattern
].

(** [match[1]] *)
Definition group1 (m : Match) : jsstring := default [] (groups m !! 0).

(** The first loop: [existingSections.add(match[1])]. *)
Definition existingSections (text : jsstring) : gset jsstring :=
  foldl (fun acc m => acc ∪ {[ group1 m ]}) ∅ (matchAll sectionRegex text).

(** Body of the second loop. *)
Definition step (existing : gset jsstring) (acc : CrossRefResult)
    (m : Match) : CrossRefResult :=
  let targetSection := group1 m in
  let exists_ := bool_decide (targetSection ∈ existing) in
  if negb exists_ then
    MkResult (violations acc + 1)
             (details acc ++ [MkDetail (matched m) targetSection exists_])
  else acc.

Definition validateCrossRefs (text : jsstring) : CrossRefResult :=
  let existing := existingSections text in
  foldl (step existing) (MkResult 0 []) (matchAll refRegex text).

End CrossRef.

(** ** Atypicality (src/validators/atypicality.ts) *)

(** [type AtypicalityLevel = 'low' | 'mid' | 'high'] (src/engine.ts) *)
Inductive AtypicalityLevel : Type := low | mid | high.

Module Atypicality.

Record AtypicalityResult : Type := MkResult {
  violations : Z;
  details : list jsstring
}.

(** [text.match(/\b\w+\b/g) || []] *)
Definition wordRegex : regex := rseq [RWordB; RRep isWordChar 1 None; RWordB].

Definition wordsOf (text : jsstring) : list jsstring :=
  map matched (matchAll wordRegex text).

(** [word.charAt(i)]: the empty string when [i] is out of range. *)
Definition charAt (i : nat) (word : jsstring) : jsstring :=
  match word !! i with
  | Some c => [c]
  | None => []
  end.

(** [/[a-z]/i]: a character whose canonical form is that of a letter. *)
Definition letterRegex_i : regex :=
  RChar (fun c => in_range 65 90 (canonicalize c)).

(** [/[a-z]/] *)
Definition lowerRegex : regex := RChar (in_range 97 122).

Definition push5 (details : list jsstring) (d : jsstring) : list jsstring :=
  if (length details <? 5) then details ++ [d] else details.

(** Body of the loop at level [mid]. *)
Definition stepMid (acc : AtypicalityResult) (word : jsstring)
    : AtypicalityResult :=
  let firstChar := charAt 0 word in
  if negb (jsstring_eqb firstChar (map toUpperCase1 firstChar))
     && test letterRegex_i firstChar
  then MkResult (violations acc + 1)
         (push5 (details acc) (js "TitleCase violation: " ++ word))
  else acc.

(** Body of the loop at level [high]. *)
Definition stepHigh (acc : AtypicalityResult) (word : jsstring)
    : AtypicalityResult :=
  if (3 <=? length word) then
    let thirdChar := charAt 2 word in
    if test lowerRegex thirdChar
    then MkResult (violations acc + 1)
           (push5 (details acc) (js "3rdLetter violation: " ++ word))
    else acc
  else acc.

(** The variable [lines] of the source is never read and is left out. *)
Definition validateAtypicality (text : jsstring) (level : AtypicalityLevel)
    : AtypicalityResult :=
  match level with
  | low => MkResult 0 []
  | mid => foldl stepMid (MkResult 0 []) (wordsOf text)
  | high => foldl stepHigh (MkResult 0 []) (wordsOf text)
  end.

End Atypicality.

(** ** Combined drift score (src/validators/index.ts) *)

Record DriftScore : Type := MkDriftScore {
  total : Z;
  vocabulary : Vocabulary.VocabularyResult;
  template : Template.TemplateResult;
  style : Style.StyleResult;
  crossRefs : CrossRef.CrossRefResult;
  atypicality : Atypicality.AtypicalityResult
}.

(** [calculateDrift(text, atypicalityLevel = 'low')]: [None] is the
    omitted (or [undefined]) second argument. *)
Definition calculateDrift (text : jsstring)
    (atypicalityLevel : option AtypicalityLevel) : DriftScore :=
  let level := default low atypicalityLevel in
  let vocabulary := Vocabulary.validateVocabulary text in
  let template := Template.validateTemplate text in
  let style := Style.validateStyle text in
  let crossRefs := CrossRef.validateCrossRefs text in
  let atypicality := Atypicality.validateAtypicality text level in
  let total :=
    (Vocabulary.violations vocabulary
     + Template.violations template
     + Style.violations style
     + CrossRef.violations crossRefs
     + Atypicality.violations atypicality)%Z in
  MkDriftScore total vocabulary template style crossRefs atypicality.

Arguments calculateDrift : simpl never.

(** ** The generation boundary (src/llm/client.ts) *)

Module Client.

Inductive ModelTier : Type := mini | thinking.

(** The prompts are template literals; a prompt is represented by the
    template it instantiates together with the interpolated values. *)
Inductive SystemPrompt : Type :=
| IncrementalSystem        (* strategies/incremental.ts SYSTEM_PROMPT *)
| RepairSystem             (* strategies/repair.ts SYSTEM_PROMPT *)
| RegenerationSystem       (* strategies/regeneration.ts SYSTEM_PROMPT *)
| ReconcileSystem.         (* the requirements-analyst prompt *)

(** One line of a violation report (formatViolations). *)
Inductive ViolationLine : Type :=
| VocabularyLine (entries : list (jsstring * Z))
| TemplateLine (entries : list (jsstring * list jsstring))
| StyleLine (longSentences : Z)
| CrossRefLine (references : list jsstring)
| AtypicalityLine (violations : Z) (examples : list jsstring).

Inductive UserPrompt : Type :=
| ApplyChangePrompt (document change : jsstring)
| FixViolationsPrompt (document : jsstring) (violations : list ViolationLine)
| GeneratePrompt (blueprint : jsstring) (patchesSummary : list (Z * jsstring))
| ReconcilePrompt (patchesSummary : list (Z * jsstring))
| GenerateReconciledPrompt (blueprint reconciled : jsstring)
| RegeneratePrompt (blueprint reconciled : jsstring)
    (violations : list ViolationLine).

Record GenerateOptions : Type := MkOptions {
  systemPrompt : SystemPrompt;
  userPrompt : UserPrompt;
  temperature : option Double.double;
  model : option ModelTier
}.

(** The argument of [client.chat.completions.create]. *)
Record Request : Type := MkRequest {
  req_model : jsstring;
  req_temperature : Double.double;
  req_system : SystemPrompt;
  req_user : UserPrompt
}.

(** What the program reads from a completion: the content of the first
    choice and the token usage, each possibly absent. *)
Record Response : Type := MkResponse {
  content : option jsstring;
  prompt_tokens : option Z;
  completion_tokens : option Z
}.

(** The remote service: an arbitrary state machine answering one request
    at a time with a response or a transport error. *)
Class Transport : Type := MkTransport {
  World : Type;
  Error : Type;
  create : Request -> World -> (Response + Error) * World
}.

Definition MAX_RETRIES : Z := 5.
Definition INITIAL_DELAY_MS : Z := 1000.

Definition MODELS (m : ModelTier) : jsstring :=
  match m with
  | mini => js "gpt-4o-mini"
  | thinking => js "gpt-5.2"
  end.

Section WithTransport.
Context {T : Transport}.

(** Module state: the service, the usage counters and the delays slept
    so far.  [totalTimeMs] reads the clock and is not represented. *)
Record State : Type := MkState {
  world : World;
  totalInputTokens : Z;
  totalOutputTokens : Z;
  totalCalls : Z;
  sleeps : list Z
}.

(** Result of a computation: a value, a thrown value ([None] is [null]),
    or a loop that was cut by its fuel. *)
Inductive Outcome (A : Type) : Type :=
| Ok (a : A)
| Throw (e : option Error)
| OutOfFuel.
Global Arguments Ok {A} a.
Global Arguments Throw {A} e.
Global Arguments OutOfFuel {A}.

Definition M (A : Type) : Type := State -> Outcome A * State.

Definition ret {A} (a : A) : M A := fun st => (Ok a, st).

Definition bind {A B} (m : M A) (f : A -> M B) : M B :=
  fun st =>
    match m st with
    | (Ok a, st') => f a st'
    | (Throw e, st') => (Throw e, st')
    | (OutOfFuel, st') => (OutOfFuel, st')
    end.

Definition throw {A} (e : option Error) : M A := fun st => (Throw e, st).
Definition outOfFuel {A} : M A := fun st => (OutOfFuel, st).

(** [await sleep(ms)] *)
Definition sleep (ms : Z) : M unit :=
  fun st =>
    (Ok tt, MkState (world st) (totalInputTokens st) (totalOutputTokens st)
              (totalCalls st) (sleeps st ++ [ms])).

(** [await client.chat.completions.create(...)] inside [try]. *)
Definition callCreate (req : Request) : M (Response + Error) :=
  fun st =>
    let '(r, w) := create req (world st) in
    (Ok r, MkState w (totalInputTokens st) (totalOutputTokens st)
             (totalCalls st) (sleeps st)).

(** The "Track usage" block. *)
Definition trackUsage (response : Response) : M unit :=
  fun st =>
    (Ok tt, MkState (world st)
              (totalInputTokens st + default 0%Z (prompt_tokens response))
              (totalOutputTokens st + default 0%Z (completion_tokens response))
              (totalCalls st + 1) (sleeps st)).

Definition resetUsageStats : M unit :=
  fun st => (Ok tt, MkState (world st) 0 0 0 (sleeps st)).

End WithTransport.

Declare Scope client_scope.
Delimit Scope client_scope with client.
Notation "'let*' x ':=' m 'in' k" := (bind m (fun x => k))
  (at level 10, x name, m at level 100, k at level 200) : client_scope.
Notation "'do' m 'in' k" := (bind m (fun _ => k))
  (at level 10, m at level 100, k at level 200) : client_scope.
Local Open Scope client_scope.

Section Generate.
Context {T : Transport}.

(** The [for (let attempt = 1; attempt <= MAX_RETRIES; attempt++)] loop
    of [generate] and the [throw lastError] after it. *)
Fixpoint generateLoop (fuel : nat) (req : Request) (attempt : Z)
    (lastError : option Error) : M jsstring :=
  match fuel with
  | 0 => outOfFuel
  | S fuel' =>
      if (attempt <=? MAX_RETRIES)%Z then
        let* r := callCreate req in
        match r with
        | inl response =>
            do trackUsage response in
            ret (default [] (content response))
        | inr error =>
            let delay := (INITIAL_DELAY_MS * 2 ^ (attempt - 1))%Z in
            do sleep delay in
            generateLoop fuel' req (attempt + 1)%Z (Some error)
        end
      else throw lastError
  end.

Definition generate (options : GenerateOptions) : M jsstring :=
  let model := MODELS (default mini (model options)) in
  let req := MkRequest model
               (default (Double.ofZ 0) (temperature options))
               (systemPrompt options) (userPrompt options) in
  generateLoop (S (Z.to_nat MAX_RETRIES)) req 1 None.

(** The request [generate] sends for given options. *)
Definition requestOf (options : GenerateOptions) : Request :=
  MkRequest (MODELS (default mini (model options)))
    (default (Double.ofZ 0) (temperature options))
    (systemPrompt options) (userPrompt options).

(** [fails_with req w es w']: starting in [w], the next [length es] calls
    with [req] fail with the errors [es] in turn and leave the service in
    [w']. *)
Inductive fails_with (req : Request) : World -> list Error -> World -> Prop :=
| fails_nil w : fails_with req w [] w
| fails_cons w e w1 es w' :
    create req w = (inr e, w1) ->
    fails_with req w1 es w' ->
    fails_with req w (e :: es) w'.

(** The delays slept after failed attempts [attempt], [attempt + 1], ... *)
Fixpoint backoff (attempt : Z) (n : nat) : list Z :=
  match n with
  | 0 => []
  | S n' => (INITIAL_DELAY_MS * 2 ^ (attempt - 1))%Z :: backoff (attempt + 1)%Z n'
  end.

Definition with_world_sleeps (st : State) (w : World) (ds : list Z) : State :=
  MkState w (totalInputTokens st) (totalOutputTokens st) (totalCalls st)
    (sleeps st ++ ds).

End Generate.

End Client.
Export Client.
Local Open Scope client_scope.

(** ** Strategy A: incremental (src/strategies/incremental.ts) *)

Module Incremental.
Section WithTransport.
Context {T : Transport}.

Definition incrementalEvolve (previousArtifact patchRequest : jsstring)
    : M jsstring :=
  let* result := generate (MkOptions IncrementalSystem
                   (ApplyChangePrompt previousArtifact patchRequest)
                   None None) in
  ret result.

End WithTransport.
End Incremental.

(** ** Drift trajectories *)

(** Every entry is smaller than the one before it. *)
Definition StrictDec (l : list Z) : Prop :=
  forall j x y, l !! j = Some x -> l !! S j = Some y -> (y < x)%Z.

(** ** Strategy B: incremental + repair (src/strategies/repair.ts) *)

Module Repair.

Definition MAX_RETRIES : Z := 3.

Record RepairResult : Type := MkResult {
  artifact : jsstring;
  retries : Z;
  finalScore : DriftScore;
  converged : bool;
  driftHistory : list Z
}.

Definition formatViolations (score : DriftScore) : list ViolationLine :=
  (if (Vocabulary.violations (vocabulary score) >? 0)%Z then
     [VocabularyLine
        (map (fun d => (Vocabulary.term d, Vocabulary.count d))
             (Vocabulary.details (vocabulary score)))]
   else [])
  ++ (if (Template.violations (template score) >? 0)%Z then
        [TemplateLine
           (map (fun d => (Template.section d, Template.missing d))
                (Template.details (template score)))]
      else [])
  ++ (if (Style.violations (style score) >? 0)%Z then
        [StyleLine (Style.longSentences (style score))]
      else [])
  ++ (if (CrossRef.violations (crossRefs score) >? 0)%Z then
        [CrossRefLine
           (map CrossRef.reference (CrossRef.details (crossRefs score)))]
      else []).

Section WithTransport.
Context {T : Transport}.

(** The variables of [repairEvolve] that the loop updates. *)
Record LoopState : Type := MkLoop {
  l_artifact : jsstring;
  l_score : DriftScore;
  l_retries : Z;
  l_prevScore : Z;
  l_driftHistory : list Z
}.

(** [while (score.total > 0 && retries < MAX_RETRIES) { ... }] *)
Fixpoint repairLoop (fuel : nat) (ls : LoopState) : M LoopState :=
  match fuel with
  | 0 => outOfFuel
  | S fuel' =>
      if (total (l_score ls) >? 0)%Z && (l_retries ls <? MAX_RETRIES)%Z then
        let retries := (l_retries ls + 1)%Z in
        let violationsSummary := formatViolations (l_score ls) in
        let* artifact := generate (MkOptions RepairSystem
                           (FixViolationsPrompt (l_artifact ls) violationsSummary)
                           None None) in
        let score := calculateDrift artifact None in
        let driftHistory := l_driftHistory ls ++ [total score] in
        if (total score >=? l_prevScore ls)%Z then
          (* break *)
          ret (MkLoop artifact score retries (l_prevScore ls) driftHistory)
        else
          repairLoop fuel' (MkLoop artifact score retries (total score) driftHistory)
      else ret ls
  end.

Definition repairEvolve (previousArtifact patchRequest : jsstring)
    : M RepairResult :=
  let* artifact := generate (MkOptions RepairSystem
                     (ApplyChangePrompt previousArtifact patchRequest)
                     None None) in
  let score := calculateDrift artifact None in
  let* ls := repairLoop (S (Z.to_nat MAX_RETRIES))
               (MkLoop artifact score 0 (total score) [total score]) in
  ret (MkResult (l_artifact ls) (l_retries ls) (l_score ls)
         (total (l_score ls) =? 0)%Z (l_driftHistory ls)).

(** The request of the initial generation. *)
Definition initialOptions (previousArtifact patchRequest : jsstring)
    : GenerateOptions :=
  MkOptions RepairSystem (ApplyChangePrompt previousArtifact patchRequest)
    None None.

(** What holds whenever the [while] condition is evaluated: [d0] is the
    total of the initial generation. *)
Record Inv (d0 : Z) (ls : LoopState) : Prop := MkInv {
  inv_retries : (0 <= l_retries ls <= MAX_RETRIES)%Z;
  inv_length : Z.of_nat (length (l_driftHistory ls)) = (l_retries ls + 1)%Z;
  inv_first : l_driftHistory ls !! 0 = Some d0;
  inv_score : l_score ls = calculateDrift (l_artifact ls) None;
  inv_prev : l_prevScore ls = total (l_score ls);
  inv_history : exists init,
      l_driftHistory ls = init ++ [total (l_score ls)] /\
      Forall (fun x => (0 < x)%Z) init /\
      StrictDec (l_driftHistory ls)
}.

(** What holds when the loop is left. *)
Record Post (d0 : Z) (ls : LoopState) : Prop := MkPost {
  post_retries : (0 <= l_retries ls <= MAX_RETRIES)%Z;
  post_length : Z.of_nat (length (l_driftHistory ls)) = (l_retries ls + 1)%Z;
  post_first : l_driftHistory ls !! 0 = Some d0;
  post_score : l_score ls = calculateDrift (l_artifact ls) None;
  post_history : exists init,
      l_driftHistory ls = init ++ [total (l_score ls)] /\
      Forall (fun x => (0 < x)%Z) init /\
      StrictDec init /\
      ((l_retries ls < MAX_RETRIES)%Z ->
       (total (l_score ls) <= 0)%Z \/
       exists prev, last init = Some prev /\ (prev <= total (l_score ls))%Z)
}.

End WithTransport.
End Repair.

(** ** Strategies C, D, E: regeneration (src/strategies/regeneration.ts) *)

Module Regeneration.

Definition MAX_RETRIES : Z := 3.

Record RegenerationResult : Type := MkResult {
  artifact : jsstring;
  retries : Z;
  finalScore : DriftScore;
  converged : bool;
  driftHistory : list Z
}.

Record RegenerationOptions : Type := MkRegenOptions {
  useRetries : option bool;
  atypicalityLevel : option AtypicalityLevel
}.

(** The default value of the [options] parameter. *)
Definition defaultOptions : RegenerationOptions :=
  MkRegenOptions (Some true) (Some low).

Definition formatViolations (score : DriftScore) : list ViolationLine :=
  (if (Vocabulary.violations (vocabulary score) >? 0)%Z then
     [VocabularyLine
        (map (fun d => (Vocabulary.term d, Vocabulary.count d))
             (Vocabulary.details (vocabulary score)))]
   else [])
  ++ (if (Template.violations (template score) >? 0)%Z then
        [TemplateLine
           (map (fun d => (Template.section d, Template.missing d))
                (Template.details (template score)))]
      else [])
  ++ (if (Style.violations (style score) >? 0)%Z then
        [StyleLine (Style.longSentences (style score))]
      else [])
  ++ (if (CrossRef.violations (crossRefs score) >? 0)%Z then
        [CrossRefLine
           (map CrossRef.reference (CrossRef.details (crossRefs score)))]
      else [])
  ++ (if (Atypicality.violations (atypicality score) >? 0)%Z then
        [AtypicalityLine (Atypicality.violations (atypicality score))
           (take 3 (Atypicality.details (atypicality score)))]
      else []).

(** [accumulatedPatches.map((p, i) => `${i + 1}. ${p}`).join('\n')],
    kept as the numbered list it prints. *)
Definition summarize (accumulatedPatches : list jsstring)
    : list (Z * jsstring) :=
  imap (fun i p => ((Z.of_nat i + 1)%Z, p)) accumulatedPatches.

Section WithTransport.
Context {T : Transport}.

Definition regenerationEvolveSimple (blueprint : jsstring)
    (accumulatedPatches : list jsstring)
    (atypicalityLevel : option AtypicalityLevel) : M RegenerationResult :=
  let atypicalityLevel := default low atypicalityLevel in
  let patchesSummary := summarize accumulatedPatches in
  let* artifact := generate (MkOptions RegenerationSystem
                     (GeneratePrompt blueprint patchesSummary) None None) in
  let score := calculateDrift artifact (Some atypicalityLevel) in
  ret (MkResult artifact 0 score (total score =? 0)%Z [total score]).

(** The variables of [regenerationEvolve] that the retry loop updates. *)
Record LoopState : Type := MkLoop {
  l_artifact : jsstring;
  l_score : DriftScore;
  l_retries : Z;
  l_driftHistory : list Z;
  l_bestScore : Z;
  l_bestArtifact : jsstring;
  l_prevScore : Z
}.

(** [while (score.total > 0 && retries < MAX_RETRIES) { ... }] *)
Fixpoint retryLoop (fuel : nat) (blueprint reconciledRequirements : jsstring)
    (level : AtypicalityLevel) (ls : LoopState) : M LoopState :=
  match fuel with
  | 0 => outOfFuel
  | S fuel' =>
      if (total (l_score ls) >? 0)%Z && (l_retries ls <? MAX_RETRIES)%Z then
        let retries := (l_retries ls + 1)%Z in
        let violations := formatViolations (l_score ls) in
        let* nextArtifact := generate (MkOptions RegenerationSystem
                               (RegeneratePrompt blueprint reconciledRequirements
                                  violations)
                               None None) in
        let nextScore := calculateDrift nextArtifact (Some level) in
        let driftHistory := l_driftHistory ls ++ [total nextScore] in
        let artifact := nextArtifact in
        let score := nextScore in
        let '(bestScore, bestArtifact) :=
          if (total nextScore <? l_bestScore ls)%Z
          then (total nextScore, nextArtifact)
          else (l_bestScore ls, l_bestArtifact ls) in
        if (total nextScore =? 0)%Z then
          (* break *)
          ret (MkLoop artifact score retries driftHistory bestScore bestArtifact
                 (l_prevScore ls))
        else
          retryLoop fuel' blueprint reconciledRequirements level
            (MkLoop artifact score retries driftHistory bestScore bestArtifact
               (total score))
      else ret ls
  end.

Definition regenerationEvolve (blueprint : jsstring)
    (accumulatedPatches : list jsstring) (options : RegenerationOptions)
    : M RegenerationResult :=
  let patchesSummary := summarize accumulatedPatches in
  let level := default low (atypicalityLevel options) in
  (* STEP 1: reconcile with the stronger model *)
  let* reconciledRequirements :=
    generate (MkOptions ReconcileSystem (ReconcilePrompt patchesSummary)
                None (Some thinking)) in
  (* STEP 2: generate with the reconciled requirements *)
  let* artifact := generate (MkOptions RegenerationSystem
                     (GenerateReconciledPrompt blueprint reconciledRequirements)
                     None None) in
  let score := calculateDrift artifact (Some level) in
  let retries := 0%Z in
  let driftHistory := [total score] in
  (* STEP 3: optional retry loop *)
  if default false (useRetries options) then
    let* ls := retryLoop (S (Z.to_nat MAX_RETRIES)) blueprint
                 reconciledRequirements level
                 (MkLoop artifact score retries driftHistory
                    (total score) artifact (total score)) in
    ret (MkResult (l_bestArtifact ls) (l_retries ls)
           (calculateDrift (l_bestArtifact ls) (Some level))
           (l_bestScore ls =? 0)%Z (l_driftHistory ls))
  else
    ret (MkResult artifact retries score (total score =? 0)%Z driftHistory).

Definition reconcileOptions (accumulatedPatches : list jsstring)
    : GenerateOptions :=
  MkOptions ReconcileSystem (ReconcilePrompt (summarize accumulatedPatches))
    None (Some thinking).

Definition firstOptions (blueprint reconciled : jsstring) : GenerateOptions :=
  MkOptions RegenerationSystem (GenerateReconciledPrompt blueprint reconciled)
    None None.

(** What holds whenever the [while] condition is evaluated, and when the
    loop is left: [d0] is the total of the initial generation. *)
Record Inv (level : AtypicalityLevel) (d0 : Z) (ls : LoopState) : Prop := MkInv {
  inv_retries : (0 <= l_retries ls <= MAX_RETRIES)%Z;
  inv_length : Z.of_nat (length (l_driftHistory ls)) = (l_retries ls + 1)%Z;
  inv_first : l_driftHistory ls !! 0 = Some d0;
  inv_score : l_score ls = calculateDrift (l_artifact ls) (Some level);
  inv_last : last (l_driftHistory ls) = Some (total (l_score ls));
  inv_best : l_bestScore ls
             = total (calculateDrift (l_bestArtifact ls) (Some level));
  inv_best_in : l_bestScore ls ∈ l_driftHistory ls;
  inv_best_min : Forall (fun x => (l_bestScore ls <= x)%Z) (l_driftHistory ls)
}.

End WithTransport.
End Regeneration.

(** ** Run records (src/store.ts) *)

Module Store.

Record IterationMetrics : Type := MkIteration {
  iteration : Z;
  driftScore : Z;
  retries : Z;
  converged : bool;
  vocabularyViolations : Z;
  templateViolations : Z;
  styleViolations : Z;
  crossRefViolations : Z;
  atypicalityViolations : option Z;
  driftHistory : option (list Z)
}.

Record RunMetrics : Type := MkRun {
  runId : jsstring;
  strategy : jsstring;
  iterations : list IterationMetrics
}.

End Store.

(** ** The experiment runner (src/engine.ts) *)

Module Engine.

Inductive Strategy : Type :=
| incremental
| repair
| regeneration
| regen_reconcile
| regen_full.

Definition ALL_STRATEGIES : list Strategy :=
  [incremental; repair; regeneration; regen_reconcile; regen_full].

Definition strategyName (s : Strategy) : jsstring :=
  match s with
  | incremental => js "incremental"
  | repair => js "repair"
  | regeneration => js "regeneration"
  | regen_reconcile => js "regen-reconcile"
  | regen_full => js "regen-full"
  end.

Definition nl : jsstring := [10%N].
Definition dq : jsstring := [34%N].

Definition getAtypicalityPrompt (level : AtypicalityLevel) : jsstring :=
  match level with
  | mid =>
      nl ++ nl ++
      js "CONSTRAINT: You must write in Title Case. ALL words (including small ones like "
      ++ dq ++ js "is" ++ dq ++ js ", " ++ dq ++ js "the" ++ dq ++ js ", "
      ++ dq ++ js "a" ++ dq ++ js ") must start with a Capital Letter."
  | high =>
      nl ++ nl ++
      js "CONSTRAINT: You must write in 3rd-Letter-Uppercase Case. The third letter of every word (if it exists) must be capitalized (e.g., "
      ++ dq ++ js "heLlo woRld" ++ dq ++ js ", " ++ dq ++ js "teSt" ++ dq
      ++ js ", " ++ dq ++ js "is" ++ dq ++ js ", " ++ dq ++ js "a" ++ dq
      ++ js ", " ++ dq ++ js "coMplex" ++ dq
      ++ js "). ALL OTHER letters must be lowercase (except the first letter if it starts a sentence). DO NOT use Title Case or random caps."
  | low => []
  end.

Record EngineOptions : Type := MkEngineOptions {
  strategy : Strategy;
  runId : jsstring;
  iterations : Z;
  atypicalityLevel : option AtypicalityLevel
}.

Section WithTransport.
Context {T : Transport}.

(** The [switch (strategy)] of one iteration: the new [currentArtifact]
    and the [iterationMetrics].  The type [Strategy] has no other value,
    so the [default:] branch has no counterpart. *)
Definition runIteration (options : EngineOptions) (blueprint : jsstring)
    (currentArtifact : jsstring) (accumulatedPatches : list jsstring)
    (patch : jsstring) (i : Z) : M (jsstring * Store.IterationMetrics) :=
  match strategy options with
  | incremental =>
      let promptSuffix :=
        getAtypicalityPrompt (default low (atypicalityLevel options)) in
      let* currentArtifact :=
        Incremental.incrementalEvolve currentArtifact (patch ++ promptSuffix) in
      let score :=
        calculateDrift currentArtifact
          (Some (default low (atypicalityLevel options))) in
      ret (currentArtifact,
           Store.MkIteration i (total score) 0 true
             (Vocabulary.violations (vocabulary score))
             (Template.violations (template score))
             (Style.violations (style score))
             (CrossRef.violations (crossRefs score))
             (Some (Atypicality.violations (atypicality score)))
             None)
  | repair =>
      let promptSuffix :=
        getAtypicalityPrompt (default low (atypicalityLevel options)) in
      let* result :=
        Repair.repairEvolve currentArtifact (patch ++ promptSuffix) in
      let currentArtifact := Repair.artifact result in
      let score :=
        calculateDrift currentArtifact
          (Some (default low (atypicalityLevel options))) in
      ret (currentArtifact,
           Store.MkIteration i (total score) (Repair.retries result)
             (Repair.converged result)
             (Vocabulary.violations (vocabulary score))
             (Template.violations (template score))
             (Style.violations (style score))
             (CrossRef.violations (crossRefs score))
             (Some (Atypicality.violations (atypicality score)))
             (Some (Repair.driftHistory result)))
  | regeneration =>
      let promptSuffix :=
        getAtypicalityPrompt (default low (atypicalityLevel options)) in
      let effectiveBlueprint := blueprint ++ promptSuffix in
      let* result :=
        Regeneration.regenerationEvolveSimple effectiveBlueprint
          accumulatedPatches (atypicalityLevel options) in
      let currentArtifact := Regeneration.artifact result in
      let score := Regeneration.finalScore result in
      ret (currentArtifact,
           Store.MkIteration i (total score) 0
             (Regeneration.converged result)
             (Vocabulary.violations (vocabulary score))
             (Template.violations (template score))
             (Style.violations (style score))
             (CrossRef.violations (crossRefs score))
             (Some (Atypicality.violations (atypicality score)))
             None)
  | regen_reconcile =>
      let promptSuffix :=
        getAtypicalityPrompt (default low (atypicalityLevel options)) in
      let effectiveBlueprint := blueprint ++ promptSuffix in
      let* result :=
        Regeneration.regenerationEvolve effectiveBlueprint accumulatedPatches
          (Regeneration.MkRegenOptions (Some false) (atypicalityLevel options)) in
      let currentArtifact := Regeneration.artifact result in
      let score := Regeneration.finalScore result in
      ret (currentArtifact,
           Store.MkIteration i (total score) 0
             (Regeneration.converged result)
             (Vocabulary.violations (vocabulary score))
             (Template.violations (template score))
             (Style.violations (style score))
             (CrossRef.violations (crossRefs score))
             (Some (Atypicality.violations (atypicality score)))
             None)
  | regen_full =>
      let promptSuffix :=
        getAtypicalityPrompt (default low (atypicalityLevel options)) in
      let effectiveBlueprint := blueprint ++ promptSuffix in
      let* result :=
        Regeneration.regenerationEvolve effectiveBlueprint accumulatedPatches
          (Regeneration.MkRegenOptions (Some true) (atypicalityLevel options)) in
      let currentArtifact := Regeneration.artifact result in
      let score := Regeneration.finalScore result in
      ret (currentArtifact,
           Store.MkIteration i (total score) (Regeneration.retries result)
             (Regeneration.converged result)
             (Vocabulary.violations (vocabulary score))
             (Template.violations (template score))
             (Style.violations (style score))
             (CrossRef.violations (crossRefs score))
             (Some (Atypicality.violations (atypicality score)))
             (Some (Regeneration.driftHistory result)))
  end.

(** The variables of [runExperiment] that its loop updates; [saved]
    lists the calls of [saveArtifact] (iteration and content). *)
Record LoopState : Type := MkLoop {
  l_currentArtifact : jsstring;
  l_accumulatedPatches : list jsstring;
  l_iterations : list Store.IterationMetrics;
  l_saved : list (Z * jsstring)
}.

(** [for (let i = 1; i <= Math.min(iterations, patches.length); i++)] *)
Fixpoint runLoop (fuel : nat) (options : EngineOptions)
    (blueprint : jsstring) (patches : list jsstring) (i : Z)
    (ls : LoopState) : M LoopState :=
  match fuel with
  | 0 => outOfFuel
  | S fuel' =>
      if (i <=? Z.min (iterations options) (Z.of_nat (length patches)))%Z then
        let patch := default [] (patches !! Z.to_nat (i - 1)) in
        let accumulatedPatches := l_accumulatedPatches ls ++ [patch] in
        let* r := runIteration options blueprint (l_currentArtifact ls)
                    accumulatedPatches patch i in
        let '(currentArtifact, iterationMetrics) := r in
        runLoop fuel' options blueprint patches (i + 1)%Z
          (MkLoop currentArtifact accumulatedPatches
             (l_iterations ls ++ [iterationMetrics])
             (l_saved ls ++ [(i, currentArtifact)]))
      else ret ls
  end.

(** [runExperiment]: [loadBlueprint()] and [loadPatches()] are the two
    extra arguments; the result pairs the returned metrics with the
    artifacts handed to [saveArtifact]. *)
Definition runExperiment (options : EngineOptions) (blueprint : jsstring)
    (patches : list jsstring)
    : M (Store.RunMetrics * list (Z * jsstring)) :=
  let* ls := runLoop (S (length patches)) options blueprint patches 1
               (MkLoop blueprint [] [] []) in
  ret (Store.MkRun (runId options) (strategyName (strategy options))
         (l_iterations ls),
       l_saved ls).

End WithTransport.
End Engine.

(** ** Scripted services, for concrete runs *)

Module Stub.

(** A service that replays a fixed script and fails once it is used up. *)
#[export] Instance scripted : Transport := {|
  World := list (Response + jsstring);
  Error := jsstring;
  create := fun _ w =>
    match w with
    | r :: w' => (r, w')
    | [] => (inr (js "script exhausted"), [])
    end
|}.

(** A service that answers every request with the same text. *)
Definition constant (text : jsstring) : Transport := {|
  World := unit;
  Error := jsstring;
  create := fun _ w => (inl (MkResponse (Some text) None None), w)
|}.

Definition reply (text : jsstring) : Response + jsstring :=
  inl (MkResponse (Some text) (Some 1%Z) (Some 1%Z)).

Definition failure (msg : jsstring) : Response + jsstring := inr msg.

(** The state of a fresh process talking to a scripted service. *)
Definition start (script : list (Response + jsstring))
    : State (T := scripted) :=
  MkState (T := scripted) script 0 0 0 [].

End Stub.

(** ** The validators in the words of the specification

    Independent definitions that follow the prose of the specification;
    the theorems below compare them with the code. *)

Module Spec.

(** Sum of a list of integers. *)
Definition Zsum (l : list Z) : Z := foldr Z.add 0%Z l.

(** A word violates the third-character rule when it has a third
    character and that character is a lowercase letter. *)
Definition thirdCharViolation (word : jsstring) : bool :=
  match word !! 2 with
  | Some c => isLower c
  | None => false
  end.

(** [t] occurs at the head of [s], letter case ignored. *)
Fixpoint prefix_i (t s : jsstring) : bool :=
  match t, s with
  | [], _ => true
  | a :: t', b :: s' => char_eqb_i b a && prefix_i t' s'
  | _ :: _, [] => false
  end.

(** Number of positions of [s] at which [t] occurs, letter case ignored. *)
Fixpoint occurrences (t s : jsstring) : nat :=
  match s with
  | [] => if prefix_i t [] then 1 else 0
  | _ :: s' => (if prefix_i t s then 1 else 0) + occurrences t s'
  end.

(** No proper suffix of [t] is, letter case ignored, a prefix of [t]:
    two occurrences of [t] never overlap. *)
Definition border_free (t : jsstring) : bool :=
  forallb (fun k => negb (prefix_i (drop k t) t)) (seq 1 (length t - 1)).

(** Number of sentences of more than 25 words, that is of 26 or more. *)
Definition longCount (text : jsstring) : Z :=
  Z.of_nat (length (List.filter (fun s => (25 <? Style.countWords s)%Z)
                      (Style.sentencesOf text))).

(** Number of sentences of at most 12 words. *)
Definition shortCount (text : jsstring) : Z :=
  Z.of_nat (length (List.filter (fun s => (Style.countWords s <=? 12)%Z)
                      (Style.sentencesOf text))).

(** Fraction of short sentences; 1.0 when there is no sentence. *)
Definition shortRatioOf (text : jsstring) : Double.double :=
  match Style.sentencesOf text with
  | [] => Double.ofZ 1
  | _ :: _ =>
      Double.div (Double.ofZ (shortCount text))
        (Double.ofZ (Z.of_nat (length (Style.sentencesOf text))))
  end.

(** [shortRatio < 0.7 ? ceil((0.7 - shortRatio) * 10) : 0] *)
Definition ratioPenalty (shortRatio : Double.double) : Z :=
  if Double.ltb shortRatio Style.SHORT_RATIO_TARGET
  then Double.ceil
         (Double.mul (Double.sub Style.SHORT_RATIO_TARGET shortRatio)
            (Double.ofZ 10))
  else 0%Z.

(** The same penalty in exact arithmetic, for the ratio [short / n]:
    [ceil((7 n - 10 short) / n)] when [short / n < 7 / 10]. *)
Definition exactPenalty (short n : Z) : Z :=
  if (10 * short <? 7 * n)%Z
  then (- ((- (7 * n - 10 * short)) / n))%Z
  else 0%Z.

(** The float penalty agrees with the exact one for every ratio
    [short / n] with [1 <= n <= bound]. *)
Definition penalties_agree (bound : nat) : bool :=
  forallb (fun n =>
    forallb (fun short =>
      (ratioPenalty (Double.div (Double.ofZ (Z.of_nat short))
                       (Double.ofZ (Z.of_nat n)))
       =? exactPenalty (Z.of_nat short) (Z.of_nat n))%Z)
      (seq 0 (S n)))
    (seq 1 bound).

(** Words joined by single spaces. *)
Definition joinWords (words : list jsstring) : jsstring :=
  match words with
  | [] => []
  | w :: rest => w ++ concat (map (fun x => 32%N :: x) rest)
  end.

(** A word: not empty, no whitespace. *)
Definition isWord (w : jsstring) : bool :=
  negb (jsstring_eqb w []) && forallb (fun c => negb (isWhiteSpace c)) w.

(** The number of a heading the Template Validator has matched: the
    digits that follow the heading marker and the whitespace. *)
Definition headingNumber (heading : jsstring) : jsstring :=
  takeWhile isDigit
    (dropWhile isWhiteSpace (dropWhile (char_eqb (chr "#")) heading)).

(** The section numbers the section parse of the Template Validator
    recognizes. *)
Definition templateSectionNumbers (text : jsstring) : gset jsstring :=
  list_to_set (map (fun m => headingNumber (matched m))
                 (matchAll Template.sectionRegex text)).

End Spec.

(** ** Sample documents and scripts *)

Module Sample.
Import Stub.

(** A document holding the given terms, one short sentence each. *)
Definition document (terms : list jsstring) : jsstring :=
  concat (map (fun t => t ++ js ". ") terms).

Definition conforming : jsstring := document Vocabulary.VOCABULARY.

Definition attempt1 : jsstring := document (drop 5 Vocabulary.VOCABULARY).
Definition attempt2 : jsstring := document (drop 2 Vocabulary.VOCABULARY).
Definition attempt3 : jsstring := document (drop 7 Vocabulary.VOCABULARY).
Definition attempt4 : jsstring := document (take 18 Vocabulary.VOCABULARY).

Definition blueprint : jsstring := js "# 1. Access Control".
Definition patches : list jsstring := [js "Add a section on backups."].
Definition reconciled : jsstring := js "1. Add a section on backups.".

(** Reconciliation, then four attempts with totals 5, 2, 7, 2. *)
Definition script_5272 : list (Response + jsstring) :=
  [reply reconciled; reply attempt1; reply attempt2; reply attempt3;
   reply attempt4].

(** A repair run: the initial text and two repairs, totals 5, 2, 7. *)
Definition repair_script : list (Response + jsstring) :=
  [reply attempt1; reply attempt2; reply attempt3].

Definition repair_run : Outcome Repair.RepairResult * State :=
  Repair.repairEvolve (T := scripted) blueprint (js "Add MFA.")
    (start repair_script).

Definition regen_run : Outcome Regeneration.RegenerationResult * State :=
  Regeneration.regenerationEvolve (T := scripted) blueprint patches
    (Regeneration.MkRegenOptions (Some true) None) (start script_5272).

(** One iteration of the runner, strategy [incremental], with a service
    that answers with the empty document. *)
Definition incremental_run
    : Outcome (jsstring * Store.IterationMetrics) * State :=
  Engine.runIteration (T := scripted)
    (Engine.MkEngineOptions Engine.incremental (js "run_01") 1 None)
    blueprint blueprint patches (js "Add a section on backups.") 1
    (start [reply []]).

(** One iteration, strategy [repair], level [high], with a service that
    answers with a document that conforms at level [low]. *)
Definition repair_high_run
    : Outcome (jsstring * Store.IterationMetrics) * State :=
  Engine.runIteration (T := scripted)
    (Engine.MkEngineOptions Engine.repair (js "run_01") 1 (Some high))
    blueprint blueprint patches (js "Add a section on backups.") 1
    (start [reply conforming]).

(** One iteration, strategy [regen-full], level [low]. *)
Definition regen_full_run
    : Outcome (jsstring * Store.IterationMetrics) * State :=
  Engine.runIteration (T := scripted)
    (Engine.MkEngineOptions Engine.regen_full (js "run_01") 1 None)
    blueprint blueprint patches (js "Add a section on backups.") 1
    (start script_5272).

(** Two transport failures, then an answer. *)
Definition flaky_script : list (Response + jsstring) :=
  [failure (js "timeout 1"); failure (js "timeout 2"); reply (js "done")].

(** Five transport failures in a row. *)
Definition dead_script : list (Response + jsstring) :=
  [failure (js "e1"); failure (js "e2"); failure (js "e3");
   failure (js "e4"); failure (js "e5"); reply (js "too late")].

Definition some_options : GenerateOptions :=
  MkOptions IncrementalSystem (ApplyChangePrompt blueprint (js "Add MFA."))
    None None.

(** Six words, each with a lowercase third letter. *)
Definition six_words : jsstring := js "alpha bravo charlie delta echo foxtrot".

(** The conforming document with "PKI" once more and without "MFA". *)
Definition pki_twice_no_mfa : jsstring :=
  js "PKI. " ++
  document (List.filter (fun t => negb (jsstring_eqb t (js "MFA")))
              Vocabulary.VOCABULARY).

(** One sentence of [n] words. *)
Definition sentence_of (n : nat) : jsstring :=
  Spec.joinWords (replicate n (js "word")) ++ js ".".

(** A heading with a dotted number. *)
Definition dotted_heading : jsstring := js "## 1.2. Overview".

(** A numbered heading without a title, followed by another heading. *)
Definition untitled_heading : jsstring := js "# 1. 
# 2. Scope".

End Sample.

(** * Properties *)

Opaque calculateDrift.

Example split_demo :
  split (RRep (oneOf (js ".!?")) 1 None) (js "a b. c!?d") = [js "a b"; js " c"; js "d"].
Proof. vm_compute. reflexivity. Qed.

Example words_demo :
  map matched (matchAll (rseq [RWordB; RRep isWordChar 1 None; RWordB]) (js "ab, c_d  e9"))
  = [js "ab"; js "c_d"; js "e9"].
Proof. vm_compute. reflexivity. Qed.

(** ** The monad *)

Section MonadFacts.
Context {T : Transport}.

Lemma bind_Ok_inv {A B} (m : M A) (f : A -> M B) st b st' :
  bind m f st = (Ok b, st') ->
  exists a st1, m st = (Ok a, st1) /\ f a st1 = (Ok b, st').
Proof.
  unfold bind. destruct (m st) as [[a|e|] st1]; intros H; try discriminate.
  exists a, st1. split; [reflexivity | exact H].
Qed.

Lemma ret_Ok_inv {A} (a b : A) (st st' : State) :
  ret a st = (Ok b, st') -> a = b /\ st = st'.
Proof. unfold ret. intros H. by inversion H. Qed.

Lemma bind_OutOfFuel_inv {A B} (m : M A) (f : A -> M B) st st' :
  bind m f st = (OutOfFuel, st') ->
  m st = (OutOfFuel, st') \/
  exists a st1, m st = (Ok a, st1) /\ f a st1 = (OutOfFuel, st').
Proof.
  unfold bind. destruct (m st) as [[a|e|] st1]; intros H; try discriminate.
  - right. exists a, st1. split; [reflexivity | exact H].
  - left. inversion H. reflexivity.
Qed.

Lemma bind_returns {A B} (m : M A) (f : A -> M B) :
  (forall st, (m st).1 <> OutOfFuel) ->
  (forall a st, (f a st).1 <> OutOfFuel) ->
  forall st, (bind m f st).1 <> OutOfFuel.
Proof.
  intros Hm Hf st. unfold bind. specialize (Hm st).
  destruct (m st) as [[a|e|] st1]; [apply Hf | done | done].
Qed.

Lemma ret_returns {A} (a : A) (st : State) : (ret a st).1 <> OutOfFuel.
Proof. done. Qed.

End MonadFacts.

(** ** generate: bounded retries with exponential backoff *)

Section GenerateFacts.
Context {T : Transport}.

Lemma with_world_sleeps_nil st : with_world_sleeps st (world st) [] = st.
Proof. destruct st. unfold with_world_sleeps. simpl. by rewrite app_nil_r. Qed.

Lemma generateLoop_failures req es :
  forall fuel attempt lastError st w',
    fails_with req (world st) es w' ->
    (attempt + Z.of_nat (length es) <= MAX_RETRIES + 1)%Z ->
    generateLoop (length es + fuel) req attempt lastError st =
    generateLoop fuel req (attempt + Z.of_nat (length es))%Z
      (match last es with Some e => Some e | None => lastError end)
      (with_world_sleeps st w' (backoff attempt (length es))).
Proof.
  induction es as [|e es IH]; intros fuel attempt lastError st w' Hf Hle.
  - inversion Hf; subst. simpl. rewrite Z.add_0_r.
    by rewrite with_world_sleeps_nil.
  - inversion Hf as [|w0 e0 w1 es0 w2 Hc Hrest]; subst.
    cbn [length Nat.add generateLoop].
    assert (Ha : (attempt <=? MAX_RETRIES)%Z = true).
    { apply Z.leb_le. cbn [length] in Hle. lia. }
    rewrite Ha. unfold bind at 1. unfold callCreate. rewrite Hc.
    unfold bind at 1. unfold sleep. cbn [world].
    set (st1 := MkState _ _ _ _ _).
    rewrite (IH fuel (attempt + 1)%Z (Some e) st1 w').
    + f_equal.
      * cbn [length]. lia.
      * destruct es as [|e' es']; [reflexivity|].
        rewrite !last_cons. by destruct (last es').
      * subst st1. unfold with_world_sleeps. cbn.
        by rewrite <- app_assoc.
    + subst st1. exact Hrest.
    + cbn [length] in Hle. lia.
Qed.

End GenerateFacts.

Section GenerateTheory.
Context {T : Transport}.

Lemma fails_with_total (req : Request) (n : nat) :
  forall w, exists es w',
    fails_with req w es w' /\ length es <= n /\
    (length es = n \/ exists resp w'', create req w' = (inl resp, w'')).
Proof.
  induction n as [|n IH]; intros w.
  - exists [], w. split; [constructor|]. split; [simpl; lia | left; reflexivity].
  - destruct (create req w) as [[resp|e] w1] eqn:Hc.
    + exists [], w. split; [constructor|]. split; [simpl; lia|].
      right. by exists resp, w1.
    + destruct (IH w1) as (es & w' & Hf & Hlen & Hend).
      exists (e :: es), w'. split; [by econstructor|].
      split; [simpl; lia|].
      destruct Hend as [Hn | Hs]; [left; simpl; lia | right; exact Hs].
Qed.

Lemma backoff_take (n : nat) :
  n <= 5 -> backoff 1 n = take n [1000; 2000; 4000; 8000; 16000]%Z.
Proof.
  intros Hn.
  do 6 (destruct n as [|n]; [reflexivity|]). lia.
Qed.

Lemma generate_success (options : GenerateOptions) (st : State) es w' resp w'' :
  fails_with (requestOf options) (world st) es w' ->
  length es < 5 ->
  create (requestOf options) w' = (inl resp, w'') ->
  generate options st =
    (Ok (default [] (content resp)),
     MkState w''
       (totalInputTokens st + default 0%Z (prompt_tokens resp))
       (totalOutputTokens st + default 0%Z (completion_tokens resp))
       (totalCalls st + 1)
       (sleeps st ++ take (length es) [1000; 2000; 4000; 8000; 16000]%Z)).
Proof.
  intros Hf Hlen Hc. unfold generate. fold (requestOf options).
  replace (S (Z.to_nat MAX_RETRIES)) with (length es + (6 - length es))
    by (unfold MAX_RETRIES; lia).
  rewrite (generateLoop_failures _ es _ _ _ st w' Hf)
    by (unfold MAX_RETRIES; lia).
  destruct (6 - length es) as [|fuel] eqn:Hfuel; [lia|].
  cbn [generateLoop].
  assert (Ha : (1 + Z.of_nat (length es) <=? MAX_RETRIES)%Z = true).
  { apply Z.leb_le. unfold MAX_RETRIES. lia. }
  rewrite Ha. unfold bind, callCreate. cbn [world with_world_sleeps].
  rewrite Hc. unfold trackUsage, ret. cbn.
  by rewrite backoff_take by lia.
Qed.

Lemma generate_exhausted (options : GenerateOptions) (st : State) es w' :
  fails_with (requestOf options) (world st) es w' ->
  length es = 5 ->
  generate options st =
    (Throw (last es),
     with_world_sleeps st w' [1000; 2000; 4000; 8000; 16000]%Z).
Proof.
  intros Hf Hlen. unfold generate. fold (requestOf options).
  replace (S (Z.to_nat MAX_RETRIES)) with (length es + 1)
    by (unfold MAX_RETRIES; lia).
  rewrite (generateLoop_failures _ es _ _ _ st w' Hf)
    by (unfold MAX_RETRIES; lia).
  cbn [generateLoop].
  assert (Ha : (1 + Z.of_nat (length es) <=? MAX_RETRIES)%Z = false).
  { apply Z.leb_gt. unfold MAX_RETRIES. lia. }
  rewrite Ha. unfold throw. rewrite Hlen.
  f_equal. destruct (last es) eqn:Hl; [reflexivity|].
  apply last_None in Hl. subst es. discriminate.
Qed.

(** [generate] always comes back: with a text or with a thrown error. *)
Lemma generate_returns (options : GenerateOptions) (st : State) :
  (generate options st).1 <> OutOfFuel.
Proof.
  destruct (fails_with_total (requestOf options) 5 (world st))
    as (es & w' & Hf & Hlen & [H5 | (resp & w'' & Hc)]).
  - by rewrite (generate_exhausted _ _ _ _ Hf H5).
  - destruct (decide (length es = 5)) as [H5|Hn5].
    + by rewrite (generate_exhausted _ _ _ _ Hf H5).
    + rewrite (generate_success _ _ _ _ _ _ Hf ltac:(lia) Hc). done.
Qed.

End GenerateTheory.

(** C8.  Every call of [generate] makes at most five attempts.  If the
    first [k < 5] attempts fail and the next one succeeds, the generated
    text (the empty string when the completion carries none) is returned
    after sleeping 1000, 2000, ... ms, one delay per failed attempt, each
    twice the one before.  If all five attempts fail, the error of the
    last attempt is thrown as it is.  One of the two cases always
    applies. *)
Theorem generate_retries_with_backoff :
  forall (T : Transport) (options : GenerateOptions) (st : State),
    (exists es w',
        fails_with (requestOf options) (world st) es w' /\ length es <= 5 /\
        (length es = 5 \/
         exists resp w'', create (requestOf options) w' = (inl resp, w''))) /\
    (forall es w' resp w'',
        fails_with (requestOf options) (world st) es w' ->
        length es < 5 ->
        create (requestOf options) w' = (inl resp, w'') ->
        generate options st =
          (Ok (default [] (content resp)),
           MkState w''
             (totalInputTokens st + default 0%Z (prompt_tokens resp))
             (totalOutputTokens st + default 0%Z (completion_tokens resp))
             (totalCalls st + 1)
             (sleeps st ++ take (length es) [1000; 2000; 4000; 8000; 16000]%Z))) /\
    (forall es w',
        fails_with (requestOf options) (world st) es w' ->
        length es = 5 ->
        generate options st =
          (Throw (last es),
           with_world_sleeps st w' [1000; 2000; 4000; 8000; 16000]%Z)).
Proof.
  intros T options st. split; [|split].
  - apply fails_with_total.
  - intros es w' resp w''. apply generate_success.
  - intros es w'. apply generate_exhausted.
Qed.

Ltac fails_step :=
  lazymatch goal with
  | |- fails_with ?req ?w (?e :: ?es) ?w' =>
      refine (fails_cons (T := Stub.scripted) req w e _ es w' eq_refl _)
  end.

Lemma generate_retries_with_backoff_witness :
  generate (T := Stub.scripted) Sample.some_options
    (Stub.start Sample.flaky_script)
  = (Ok (js "done"),
     MkState (T := Stub.scripted) [] 1 1 1 [1000; 2000]%Z) /\
  generate (T := Stub.scripted) Sample.some_options
    (Stub.start Sample.dead_script)
  = (Throw (T := Stub.scripted) (Some (js "e5")),
     MkState (T := Stub.scripted) [Stub.reply (js "too late")] 0 0 0
       [1000; 2000; 4000; 8000; 16000]%Z).
Proof.
  pose proof (generate_retries_with_backoff Stub.scripted Sample.some_options
                (Stub.start Sample.flaky_script)) as (_ & Hok & _).
  pose proof (generate_retries_with_backoff Stub.scripted Sample.some_options
                (Stub.start Sample.dead_script)) as (_ & _ & Hthrow).
  split.
  - refine (Hok [js "timeout 1"; js "timeout 2"] [Stub.reply (js "done")]
              (MkResponse (Some (js "done")) (Some 1%Z) (Some 1%Z)) [] _ _ _).
    + do 2 fails_step. exact (fails_nil (T := Stub.scripted) _ _).
    + simpl. lia.
    + reflexivity.
  - refine (Hthrow [js "e1"; js "e2"; js "e3"; js "e4"; js "e5"]
              [Stub.reply (js "too late")] _ _).
    + do 5 fails_step. exact (fails_nil (T := Stub.scripted) _ _).
    + reflexivity.
Defined.

(** ** Drift trajectories *)

Lemma StrictDec_app_l (l1 l2 : list Z) : StrictDec (l1 ++ l2) -> StrictDec l1.
Proof.
  intros H j x y Hx Hy. apply (H j x y).
  - by apply lookup_app_l_Some.
  - by apply lookup_app_l_Some.
Qed.

Lemma StrictDec_snoc (init : list Z) (a b : Z) :
  StrictDec (init ++ [a]) -> (b < a)%Z -> StrictDec ((init ++ [a]) ++ [b]).
Proof.
  intros H Hlt j x y Hx Hy.
  destruct (decide (S j < length (init ++ [a]))) as [Hin|Hout].
  - rewrite lookup_app_l in Hx by lia. rewrite lookup_app_l in Hy by lia.
    by apply (H j x y).
  - assert (Hj : S j = length (init ++ [a])).
    { apply lookup_lt_Some in Hy. rewrite length_app in Hy. simpl in Hy. lia. }
    rewrite lookup_app_r in Hy by lia. rewrite Hj, Nat.sub_diag in Hy.
    simpl in Hy. inversion Hy; subst y.
    rewrite lookup_app_l in Hx by lia.
    rewrite length_app in Hj. simpl in Hj.
    rewrite lookup_app_r in Hx by lia.
    replace (j - length init) with 0 in Hx by lia.
    simpl in Hx. by inversion Hx; subst.
Qed.

Lemma StrictDec_singleton (a : Z) : StrictDec [a].
Proof. intros j x y Hx Hy. destruct j; discriminate. Qed.

(** ** repair: the loop and its result *)

Module RepairFacts.
Import Repair.

Section WithTransport.
Context {T : Transport}.

Lemma repairLoop_post (d0 : Z) (fuel : nat) :
  forall ls st ls' st',
    Inv d0 ls ->
    repairLoop fuel ls st = (Ok ls', st') ->
    Post d0 ls'.
Proof.
  induction fuel as [|fuel IH]; intros ls st ls' st' HI Hrun.
  - discriminate.
  - cbn [repairLoop] in Hrun.
    destruct HI as [Hret Hlen Hfirst Hscore Hprev (init & Hdh & Hpos & Hdec)].
    unfold MAX_RETRIES in *.
    destruct ((total (l_score ls) >? 0)%Z && (l_retries ls <? 3)%Z)
      eqn:Hcond.
    + apply andb_prop in Hcond as [Hgt Hlt].
      apply Z.gtb_lt in Hgt. apply Z.ltb_lt in Hlt.
      apply bind_Ok_inv in Hrun as (artifact & st1 & Hgen & Hrun).
      set (new := calculateDrift artifact None) in *.
      assert (Hfirst' : (l_driftHistory ls ++ [total new]) !! 0 = Some d0).
      { rewrite lookup_app_l; [exact Hfirst|].
        apply lookup_lt_Some in Hfirst. exact Hfirst. }
      assert (Hlen' : Z.of_nat (length (l_driftHistory ls ++ [total new]))
                      = (l_retries ls + 1 + 1)%Z).
      { rewrite length_app. simpl. lia. }
      assert (Hpos' : Forall (fun x => (0 < x)%Z) (l_driftHistory ls)).
      { rewrite Hdh. apply Forall_app. split; [exact Hpos|]. by constructor. }
      destruct (total new >=? l_prevScore ls)%Z eqn:Hbreak.
      * apply ret_Ok_inv in Hrun as [<- _].
        constructor; unfold MAX_RETRIES;
          cbn [l_retries l_driftHistory l_score l_artifact].
        -- lia.
        -- exact Hlen'.
        -- exact Hfirst'.
        -- reflexivity.
        -- exists (l_driftHistory ls). split; [reflexivity|].
           split; [exact Hpos'|]. split; [exact Hdec|].
           intros _. right. exists (total (l_score ls)).
           split.
           ++ rewrite Hdh. apply last_snoc.
           ++ apply Z.geb_le in Hbreak. lia.
      * assert (Hnew : (total new < total (l_score ls))%Z).
        { rewrite Z.geb_leb in Hbreak. apply Z.leb_gt in Hbreak. lia. }
        refine (IH _ _ _ _ _ Hrun).
        constructor; unfold MAX_RETRIES;
          cbn [l_retries l_driftHistory l_score l_artifact l_prevScore].
        -- lia.
        -- exact Hlen'.
        -- exact Hfirst'.
        -- reflexivity.
        -- reflexivity.
        -- exists (l_driftHistory ls). split; [reflexivity|].
           split; [exact Hpos'|].
           rewrite Hdh. apply StrictDec_snoc; [by rewrite <- Hdh | exact Hnew].
    + apply ret_Ok_inv in Hrun as [<- _].
      constructor; unfold MAX_RETRIES; try assumption.
      exists init. split; [exact Hdh|]. split; [exact Hpos|].
      split.
      * rewrite Hdh in Hdec. by apply StrictDec_app_l in Hdec.
      * intros Hlt. left.
        apply andb_false_iff in Hcond as [Hc|Hc].
        -- rewrite Z.gtb_ltb in Hc. by apply Z.ltb_ge in Hc.
        -- apply Z.ltb_ge in Hc. lia.
Qed.

(** Fuel: with more than [MAX_RETRIES - retries] units the loop is never
    cut. *)
Lemma repairLoop_fuel (fuel : nat) :
  forall ls st,
    (0 <= l_retries ls <= MAX_RETRIES)%Z ->
    (MAX_RETRIES - l_retries ls < Z.of_nat fuel)%Z ->
    (repairLoop fuel ls st).1 <> OutOfFuel.
Proof.
  unfold MAX_RETRIES.
  induction fuel as [|fuel IH]; intros ls st H0 Hfuel; [lia|].
  cbn [repairLoop]. unfold MAX_RETRIES.
  destruct ((total (l_score ls) >? 0)%Z && (l_retries ls <? 3)%Z) eqn:Hcond;
    [|done].
  apply andb_prop in Hcond as [_ Hlt]. apply Z.ltb_lt in Hlt.
  unfold bind at 1.
  match goal with |- context [generate ?o st] =>
    pose proof (generate_returns o st) as Hg;
    destruct (generate o st) as [[a|e|] st1] end;
    [|cbn [fst] in *; congruence..].
  destruct (_ >=? _)%Z; [done|].
  apply IH; cbn [l_retries]; lia.
Qed.

Lemma repairEvolve_returns (previousArtifact patchRequest : jsstring) st :
  (repairEvolve previousArtifact patchRequest st).1 <> OutOfFuel.
Proof.
  unfold repairEvolve. unfold bind at 1.
  match goal with |- context [generate ?o st] =>
    pose proof (generate_returns o st) as Hg;
    destruct (generate o st) as [[a|e|] st1] end;
    [|cbn [fst] in *; congruence..].
  unfold bind.
  match goal with |- context [repairLoop ?f ?l st1] =>
    pose proof (repairLoop_fuel f l st1) as Hl;
    destruct (repairLoop f l st1) as [[ls|e|] st2] end; [done|done|].
  exfalso. apply Hl; cbn [l_retries fst]; unfold MAX_RETRIES; [lia|lia|done].
Qed.

Lemma repairEvolve_Ok (previousArtifact patchRequest : jsstring) st r st' :
  repairEvolve previousArtifact patchRequest st = (Ok r, st') ->
  exists a0 st1 init,
    generate (initialOptions previousArtifact patchRequest) st = (Ok a0, st1) /\
    (0 <= retries r <= 3)%Z /\
    Z.of_nat (length (driftHistory r)) = (retries r + 1)%Z /\
    driftHistory r !! 0 = Some (total (calculateDrift a0 None)) /\
    finalScore r = calculateDrift (artifact r) None /\
    converged r = (total (finalScore r) =? 0)%Z /\
    driftHistory r = init ++ [total (finalScore r)] /\
    Forall (fun x => (0 < x)%Z) init /\
    StrictDec init /\
    ((retries r < 3)%Z ->
     (total (finalScore r) <= 0)%Z \/
     exists prev, last init = Some prev /\ (prev <= total (finalScore r))%Z).
Proof.
  unfold repairEvolve. intros Hrun.
  apply bind_Ok_inv in Hrun as (a0 & st1 & Hgen & Hrun).
  apply bind_Ok_inv in Hrun as (ls & st2 & Hloop & Hrun).
  apply ret_Ok_inv in Hrun as [<- _].
  apply (repairLoop_post (total (calculateDrift a0 None))) in Hloop.
  - destruct Hloop as [Hret Hlen Hfirst Hscore (init & Hdh & Hpos & Hdec & Hwhy)].
    exists a0, st1, init. cbn [retries driftHistory finalScore artifact converged].
    unfold MAX_RETRIES in *.
    repeat split; try assumption; lia.
  - constructor; cbn [l_retries l_driftHistory l_score l_artifact l_prevScore];
      unfold MAX_RETRIES; try reflexivity; try lia.
    exists []. split; [reflexivity|]. split; [constructor|].
    apply StrictDec_singleton.
Qed.

(** With a service that always answers [text], a call of [generate]
    returns [text] at once. *)
Lemma generate_constant (text : jsstring) (options : GenerateOptions)
    (st : State (T := Stub.constant text)) :
  generate options st =
    (Ok text, MkState (world st) (totalInputTokens st) (totalOutputTokens st)
                (totalCalls st + 1) (sleeps st)).
Proof.
  unfold generate. cbn [generateLoop Z.to_nat]. 
  destruct st as [w a b c d]. unfold bind, callCreate, trackUsage, ret. cbn.
  by rewrite !Z.add_0_r.
Qed.

End WithTransport.

Lemma repairEvolve_constant (text previousArtifact patchRequest : jsstring)
    (st : State (T := Stub.constant text)) :
  (0 < total (calculateDrift text None))%Z ->
  repairEvolve previousArtifact patchRequest st =
    (Ok (MkResult text 1 (calculateDrift text None) false
           [total (calculateDrift text None); total (calculateDrift text None)]),
     MkState (world st) (totalInputTokens st) (totalOutputTokens st)
       (totalCalls st + 1 + 1) (sleeps st)).
Proof.
  intros Hpos. unfold repairEvolve.
  unfold bind at 1. rewrite generate_constant.
  cbn [repairLoop Z.to_nat MAX_RETRIES Pos.to_nat Pos.iter_op Nat.add
       l_score l_retries l_artifact l_prevScore l_driftHistory].
  assert (H1 : (total (calculateDrift text None) >? 0)%Z = true).
  { rewrite Z.gtb_ltb. by apply Z.ltb_lt. }
  assert (H2 : (total (calculateDrift text None)
                >=? total (calculateDrift text None))%Z = true).
  { rewrite Z.geb_leb. apply Z.leb_refl. }
  assert (H3 : (total (calculateDrift text None) =? 0)%Z = false).
  { apply Z.eqb_neq. lia. }
  rewrite H1. change (0 <? MAX_RETRIES)%Z with true. cbv iota beta.
  cbn [andb]. unfold bind. rewrite generate_constant.
  rewrite H2. unfold ret.
  cbn [l_score l_retries l_artifact l_prevScore l_driftHistory
       world totalInputTokens totalOutputTokens totalCalls sleeps app].
  by rewrite H3.
Qed.

End RepairFacts.

(** ** regeneration: the retry loop and its result *)

Module RegenerationFacts.
Import Regeneration.

Section WithTransport.
Context {T : Transport}.

Lemma retryLoop_inv (level : AtypicalityLevel) (d0 : Z)
    (blueprint reconciled : jsstring) (fuel : nat) :
  forall ls st ls' st',
    Inv level d0 ls ->
    retryLoop fuel blueprint reconciled level ls st = (Ok ls', st') ->
    Inv level d0 ls' /\
    ((l_retries ls' < MAX_RETRIES)%Z -> (total (l_score ls') <= 0)%Z).
Proof.
  induction fuel as [|fuel IH]; intros ls st ls' st' HI Hrun.
  - discriminate.
  - cbn [retryLoop] in Hrun. unfold MAX_RETRIES in *.
    destruct ((total (l_score ls) >? 0)%Z && (l_retries ls <? 3)%Z)
      eqn:Hcond.
    + destruct HI as [Hret Hlen Hfirst Hscore Hlast Hbest Hin Hmin].
      unfold MAX_RETRIES in *.
      apply andb_prop in Hcond as [Hgt Hlt].
      apply Z.gtb_lt in Hgt. apply Z.ltb_lt in Hlt.
      apply bind_Ok_inv in Hrun as (next & st1 & Hgen & Hrun).
      set (new := calculateDrift next (Some level)) in *.
      assert (HI' : forall prev,
        Inv level d0
          (MkLoop next new (l_retries ls + 1)
             (l_driftHistory ls ++ [total new])
             (if (total new <? l_bestScore ls)%Z then total new
              else l_bestScore ls)
             (if (total new <? l_bestScore ls)%Z then next
              else l_bestArtifact ls)
             prev)).
      { intros prev.
        constructor; unfold MAX_RETRIES;
          cbn [l_retries l_driftHistory l_score l_artifact l_bestScore
               l_bestArtifact].
        - lia.
        - rewrite length_app. simpl. lia.
        - rewrite lookup_app_l; [exact Hfirst|].
          apply lookup_lt_Some in Hfirst. exact Hfirst.
        - reflexivity.
        - apply last_snoc.
        - destruct (total new <? l_bestScore ls)%Z; [reflexivity | exact Hbest].
        - destruct (total new <? l_bestScore ls)%Z.
          + apply elem_of_app. right. by apply list_elem_of_singleton.
          + apply elem_of_app. by left.
        - destruct (total new <? l_bestScore ls)%Z eqn:Hlt'.
          + apply Z.ltb_lt in Hlt'. apply Forall_app. split.
            * eapply Forall_impl; [exact Hmin|]. intros x Hx. cbn beta in *. lia.
            * constructor; [lia | constructor].
          + apply Z.ltb_ge in Hlt'. apply Forall_app. split.
            * exact Hmin.
            * constructor; [exact Hlt' | constructor]. }
      destruct (total new <? l_bestScore ls)%Z eqn:Hlt';
        destruct (total new =? 0)%Z eqn:Hzero.
      * apply ret_Ok_inv in Hrun as [<- _]. split; [apply HI'|].
        intros _. cbn [l_score]. apply Z.eqb_eq in Hzero. lia.
      * exact (IH _ _ _ _ (HI' _) Hrun).
      * apply ret_Ok_inv in Hrun as [<- _]. split; [apply HI'|].
        intros _. cbn [l_score]. apply Z.eqb_eq in Hzero. lia.
      * exact (IH _ _ _ _ (HI' _) Hrun).
    + apply ret_Ok_inv in Hrun as [<- _]. split; [exact HI|].
      intros Hlt.
      apply andb_false_iff in Hcond as [Hc|Hc].
      * rewrite Z.gtb_ltb in Hc. by apply Z.ltb_ge in Hc.
      * apply Z.ltb_ge in Hc. lia.
Qed.

Lemma retryLoop_fuel (level : AtypicalityLevel)
    (blueprint reconciled : jsstring) (fuel : nat) :
  forall ls st,
    (0 <= l_retries ls <= MAX_RETRIES)%Z ->
    (MAX_RETRIES - l_retries ls < Z.of_nat fuel)%Z ->
    (retryLoop fuel blueprint reconciled level ls st).1 <> OutOfFuel.
Proof.
  unfold MAX_RETRIES.
  induction fuel as [|fuel IH]; intros ls st H0 Hfuel; [lia|].
  cbn [retryLoop]. unfold MAX_RETRIES.
  destruct ((total (l_score ls) >? 0)%Z && (l_retries ls <? 3)%Z) eqn:Hcond;
    [|done].
  apply andb_prop in Hcond as [_ Hlt]. apply Z.ltb_lt in Hlt.
  unfold bind at 1.
  match goal with |- context [generate ?o st] =>
    pose proof (generate_returns o st) as Hg;
    destruct (generate o st) as [[a|e|] st1] end;
    [|cbn [fst] in *; congruence..].
  destruct (_ <? _)%Z; (destruct (_ =? _)%Z; [done|]);
    apply IH; cbn [l_retries]; lia.
Qed.

Lemma regenerationEvolve_returns blueprint accumulatedPatches options st :
  (regenerationEvolve blueprint accumulatedPatches options st).1 <> OutOfFuel.
Proof.
  unfold regenerationEvolve. unfold bind at 1.
  match goal with |- context [generate ?o st] =>
    pose proof (generate_returns o st) as Hg;
    destruct (generate o st) as [[rec|e|] st1] end;
    [|cbn [fst] in *; congruence..].
  unfold bind at 1.
  match goal with |- context [generate ?o st1] =>
    pose proof (generate_returns o st1) as Hg1;
    destruct (generate o st1) as [[a|e|] st2] end;
    [|cbn [fst] in *; congruence..].
  destruct (default false (useRetries options)); [|done].
  unfold bind.
  match goal with |- context [retryLoop ?f ?b ?r ?l ?s st2] =>
    pose proof (retryLoop_fuel l b r f s st2) as Hl;
    destruct (retryLoop f b r l s st2) as [[ls|e|] st3] end; [done|done|].
  exfalso. apply Hl; cbn [l_retries fst]; unfold MAX_RETRIES; [lia|lia|done].
Qed.

(** The result of [regenerationEvolve] with retries. *)
Lemma regenerationEvolve_retries_Ok blueprint accumulatedPatches lvl st r st' :
  regenerationEvolve blueprint accumulatedPatches
    (MkRegenOptions (Some true) lvl) st = (Ok r, st') ->
  exists reconciled st1 a0 st2,
    generate (reconcileOptions accumulatedPatches) st = (Ok reconciled, st1) /\
    generate (firstOptions blueprint reconciled) st1 = (Ok a0, st2) /\
    (0 <= retries r <= 3)%Z /\
    Z.of_nat (length (driftHistory r)) = (retries r + 1)%Z /\
    driftHistory r !! 0
      = Some (total (calculateDrift a0 (Some (default low lvl)))) /\
    finalScore r = calculateDrift (artifact r) (Some (default low lvl)) /\
    converged r = (total (finalScore r) =? 0)%Z /\
    total (finalScore r) ∈ driftHistory r /\
    Forall (fun x => (total (finalScore r) <= x)%Z) (driftHistory r).
Proof.
  unfold regenerationEvolve. cbn [useRetries atypicalityLevel].
  change (default false (Some true)) with true. cbv iota.
  intros Hrun. set (level := default low lvl) in *.
  apply bind_Ok_inv in Hrun as (reconciled & st1 & Hrec & Hrun).
  apply bind_Ok_inv in Hrun as (a0 & st2 & Hgen & Hrun).
  apply bind_Ok_inv in Hrun as (ls & st3 & Hloop & Hrun).
  apply ret_Ok_inv in Hrun as [<- _].
  apply (retryLoop_inv level (total (calculateDrift a0 (Some level)))) in Hloop.
  - destruct Hloop as [[Hret Hlen Hfirst Hscore Hlast Hbest Hin Hmin] _].
    exists reconciled, st1, a0, st2.
    cbn [retries driftHistory finalScore artifact converged].
    unfold MAX_RETRIES in *. rewrite <- Hbest.
    repeat split; try assumption; lia.
  - constructor;
      cbn [l_retries l_driftHistory l_score l_artifact l_bestScore
           l_bestArtifact];
      unfold MAX_RETRIES; try reflexivity; try lia.
    + apply list_elem_of_singleton. reflexivity.
    + constructor; [lia | constructor].
Qed.

(** The result of [regenerationEvolve] without retries. *)
Lemma regenerationEvolve_single_Ok blueprint accumulatedPatches options st r st' :
  default false (useRetries options) = false ->
  regenerationEvolve blueprint accumulatedPatches options st = (Ok r, st') ->
  retries r = 0%Z /\
  finalScore r
    = calculateDrift (artifact r) (Some (default low (atypicalityLevel options))) /\
  converged r = (total (finalScore r) =? 0)%Z /\
  driftHistory r = [total (finalScore r)].
Proof.
  unfold regenerationEvolve. intros Hno Hrun. rewrite Hno in Hrun.
  apply bind_Ok_inv in Hrun as (reconciled & st1 & Hrec & Hrun).
  apply bind_Ok_inv in Hrun as (a0 & st2 & Hgen & Hrun).
  apply ret_Ok_inv in Hrun as [<- _].
  cbn [retries driftHistory finalScore artifact converged]. done.
Qed.

Lemma regenerationEvolveSimple_Ok blueprint accumulatedPatches lvl st r st' :
  regenerationEvolveSimple blueprint accumulatedPatches lvl st = (Ok r, st') ->
  retries r = 0%Z /\
  finalScore r = calculateDrift (artifact r) (Some (default low lvl)) /\
  converged r = (total (finalScore r) =? 0)%Z /\
  driftHistory r = [total (finalScore r)].
Proof.
  unfold regenerationEvolveSimple. intros Hrun.
  apply bind_Ok_inv in Hrun as (a0 & st2 & Hgen & Hrun).
  apply ret_Ok_inv in Hrun as [<- _].
  cbn [retries driftHistory finalScore artifact converged]. done.
Qed.

End WithTransport.
End RegenerationFacts.

(** ** The runner: what one iteration records *)

Module EngineFacts.
Import Engine.

Lemma calculateDrift_default (text : jsstring) :
  calculateDrift text None = calculateDrift text (Some low).
Proof. Transparent calculateDrift. reflexivity. Opaque calculateDrift. Qed.

Lemma eqb_true_iff_zero (z : Z) : (z =? 0)%Z = true <-> z = 0%Z.
Proof. apply Z.eqb_eq. Qed.

Section WithTransport.
Context {T : Transport}.

Lemma runIteration_Ok options blueprint currentArtifact accumulatedPatches
    patch i st art m st' :
  runIteration options blueprint currentArtifact accumulatedPatches patch i st
    = (Ok (art, m), st') ->
  let level := default low (atypicalityLevel options) in
  Store.iteration m = i /\
  Store.driftScore m = total (calculateDrift art (Some level)) /\
  match strategy options with
  | incremental => Store.converged m = true
  | repair =>
      Store.converged m = true <-> total (calculateDrift art (Some low)) = 0%Z
  | regeneration | regen_reconcile | regen_full =>
      Store.converged m = true <-> total (calculateDrift art (Some level)) = 0%Z
  end.
Proof.
  intros Hrun level. unfold runIteration in Hrun.
  fold level in Hrun.
  destruct (strategy options).
  - apply bind_Ok_inv in Hrun as (a & st1 & Hev & Hrun).
    apply ret_Ok_inv in Hrun as [Hpair _].
    injection Hpair as <- <-. cbn [Store.iteration Store.driftScore Store.converged].
    done.
  - apply bind_Ok_inv in Hrun as (r & st1 & Hev & Hrun).
    apply ret_Ok_inv in Hrun as [Hpair _].
    injection Hpair as <- <-. cbn [Store.iteration Store.driftScore Store.converged].
    apply RepairFacts.repairEvolve_Ok in Hev
      as (a0 & st0 & init & _ & _ & _ & _ & Hfs & Hconv & _).
    split; [reflexivity|]. split; [reflexivity|].
    rewrite Hconv, Hfs, calculateDrift_default. apply eqb_true_iff_zero.
  - apply bind_Ok_inv in Hrun as (r & st1 & Hev & Hrun).
    apply ret_Ok_inv in Hrun as [Hpair _].
    injection Hpair as <- <-. cbn [Store.iteration Store.driftScore Store.converged].
    apply RegenerationFacts.regenerationEvolveSimple_Ok in Hev
      as (_ & Hfs & Hconv & _).
    fold level in Hfs. rewrite Hconv, Hfs.
    split; [reflexivity|]. split; [reflexivity|]. apply eqb_true_iff_zero.
  - apply bind_Ok_inv in Hrun as (r & st1 & Hev & Hrun).
    apply ret_Ok_inv in Hrun as [Hpair _].
    injection Hpair as <- <-. cbn [Store.iteration Store.driftScore Store.converged].
    apply RegenerationFacts.regenerationEvolve_single_Ok in Hev
      as (_ & Hfs & Hconv & _); [|reflexivity].
    cbn [Regeneration.atypicalityLevel] in Hfs. fold level in Hfs.
    rewrite Hconv, Hfs.
    split; [reflexivity|]. split; [reflexivity|]. apply eqb_true_iff_zero.
  - apply bind_Ok_inv in Hrun as (r & st1 & Hev & Hrun).
    apply ret_Ok_inv in Hrun as [Hpair _].
    injection Hpair as <- <-. cbn [Store.iteration Store.driftScore Store.converged].
    apply RegenerationFacts.regenerationEvolve_retries_Ok in Hev
      as (rc & s1 & a0 & s2 & _ & _ & _ & _ & _ & Hfs & Hconv & _).
    fold level in Hfs. rewrite Hconv, Hfs.
    split; [reflexivity|]. split; [reflexivity|]. apply eqb_true_iff_zero.
Qed.

Lemma runIteration_returns options blueprint currentArtifact
    accumulatedPatches patch i st :
  (runIteration options blueprint currentArtifact accumulatedPatches patch i
     st).1 <> OutOfFuel.
Proof.
  unfold runIteration. destruct (strategy options).
  - apply bind_returns; [|intros; apply ret_returns].
    intros st0. unfold Incremental.incrementalEvolve.
    apply bind_returns; [apply generate_returns | intros; apply ret_returns].
  - apply bind_returns; [|intros; apply ret_returns].
    apply RepairFacts.repairEvolve_returns.
  - apply bind_returns; [|intros; apply ret_returns].
    intros st0. unfold Regeneration.regenerationEvolveSimple.
    apply bind_returns; [apply generate_returns | intros; apply ret_returns].
  - apply bind_returns; [|intros; apply ret_returns].
    apply RegenerationFacts.regenerationEvolve_returns.
  - apply bind_returns; [|intros; apply ret_returns].
    apply RegenerationFacts.regenerationEvolve_returns.
Qed.

(** The loop of [runExperiment] is never cut by its fuel. *)
Lemma runLoop_fuel (options : EngineOptions) blueprint patches (fuel : nat) :
  forall i ls st,
    (1 <= i <= Z.of_nat (length patches) + 1)%Z ->
    (Z.of_nat (length patches) - i + 1 < Z.of_nat fuel)%Z ->
    (runLoop fuel options blueprint patches i ls st).1 <> OutOfFuel.
Proof.
  induction fuel as [|fuel IH]; intros i ls st Hi Hfuel; [lia|].
  cbn [runLoop].
  destruct (i <=? Z.min (iterations options) (Z.of_nat (length patches)))%Z
    eqn:Hcond; [|done].
  apply Z.leb_le in Hcond.
  apply bind_returns; [intros; apply runIteration_returns|].
  intros [art m] st1. apply IH; lia.
Qed.

Lemma runExperiment_returns (options : EngineOptions) blueprint patches st :
  (runExperiment options blueprint patches st).1 <> OutOfFuel.
Proof.
  unfold runExperiment, bind.
  match goal with |- context [runLoop ?f ?o ?b ?p ?i ?l st] =>
    pose proof (runLoop_fuel o b p f i l st) as Hl;
    destruct (runLoop f o b p i l st) as [[ls|e|] st1] end; [done|done|].
  exfalso. apply Hl; [lia | lia | done].
Qed.

End WithTransport.
End EngineFacts.

(** ** The claims about the strategies *)

(** C1.  regen-full ([regenerationEvolve] with retries): the call always
    comes back; when it returns a result, the final score is the score of
    the returned artifact, recomputed at the level in force, and its total
    is the minimum of the drift history: it occurs in the history and no
    entry is smaller.  With a service whose four attempts score 5, 2, 7
    and 2 the second attempt is returned, which scores 2 and is not the
    text of the last attempt. *)
Theorem regen_full_returns_best_attempt :
  (forall (T : Transport) blueprint accumulatedPatches options st,
      (Regeneration.regenerationEvolve blueprint accumulatedPatches options st).1
      <> OutOfFuel) /\
  (forall (T : Transport) blueprint accumulatedPatches lvl st r st',
      Regeneration.regenerationEvolve blueprint accumulatedPatches
        (Regeneration.MkRegenOptions (Some true) lvl) st = (Ok r, st') ->
      Regeneration.finalScore r
        = calculateDrift (Regeneration.artifact r) (Some (default low lvl)) /\
      total (calculateDrift (Regeneration.artifact r) (Some (default low lvl)))
        ∈ Regeneration.driftHistory r /\
      Forall (fun x =>
          (total (calculateDrift (Regeneration.artifact r)
                    (Some (default low lvl))) <= x)%Z)
        (Regeneration.driftHistory r)) /\
  (exists r st',
      Sample.regen_run = (Ok r, st') /\
      Regeneration.driftHistory r = [5; 2; 7; 2]%Z /\
      Regeneration.artifact r = Sample.attempt2 /\
      total (calculateDrift Sample.attempt2 None) = 2%Z /\
      Sample.attempt2 <> Sample.attempt4).
Proof.
  split; [|split].
  - intros T. apply RegenerationFacts.regenerationEvolve_returns.
  - intros T blueprint accumulatedPatches lvl st r st' Hrun.
    apply RegenerationFacts.regenerationEvolve_retries_Ok in Hrun
      as (rc & s1 & a0 & s2 & _ & _ & _ & _ & _ & Hfs & _ & Hin & Hmin).
    rewrite <- Hfs. done.
  - eexists _, _. split; [vm_compute; reflexivity|].
    cbn [Regeneration.driftHistory Regeneration.artifact].
    split; [reflexivity|]. split; [vm_compute; reflexivity|].
    split; [vm_compute; reflexivity|].
    vm_compute. discriminate.
Qed.

Lemma regen_full_returns_best_attempt_witness :
  exists r st',
    Sample.regen_run = (Ok r, st') /\
    total (calculateDrift (Regeneration.artifact r) (Some low))
      ∈ Regeneration.driftHistory r /\
    Forall (fun x =>
        (total (calculateDrift (Regeneration.artifact r) (Some low)) <= x)%Z)
      (Regeneration.driftHistory r).
Proof.
  assert (E : exists r st', Sample.regen_run = (Ok r, st'))
    by (eexists _, _; vm_compute; reflexivity).
  destruct E as (r & st' & E). exists r, st'. split; [exact E|].
  exact (proj2 (proj1 (proj2 regen_full_returns_best_attempt)
           Stub.scripted _ _ None _ r st' E)).
Defined.

(** C3.  repair: the call always comes back.  A result has at most 3
    retries and at most 4 drift-history entries; an entry that is not
    the last one is positive (a total of 0 ends the loop at once), and
    from the first retry on an entry that is not the last one is smaller
    than the entry before it (an attempt that does not improve ends the
    loop); the returned artifact is the last attempt: the last entry is
    its total and the final score is its score.  With a service that
    always answers the same text of positive total, the loop ends after
    the first retry.  With a service whose texts score 5, 2 and 7 the
    loop ends after the second retry and returns the text that scores 7. *)
Theorem repair_loop_bounded_early_stop :
  (forall (T : Transport) previousArtifact patchRequest st,
      (Repair.repairEvolve previousArtifact patchRequest st).1 <> OutOfFuel) /\
  (forall (T : Transport) previousArtifact patchRequest st r st',
      Repair.repairEvolve previousArtifact patchRequest st = (Ok r, st') ->
      (0 <= Repair.retries r <= 3)%Z /\
      Z.of_nat (length (Repair.driftHistory r)) = (Repair.retries r + 1)%Z /\
      length (Repair.driftHistory r) <= 4 /\
      (forall j x,
          Repair.driftHistory r !! j = Some x ->
          j + 1 < length (Repair.driftHistory r) -> (0 < x)%Z) /\
      (forall j x y,
          Repair.driftHistory r !! j = Some x ->
          Repair.driftHistory r !! S j = Some y ->
          S j + 1 < length (Repair.driftHistory r) -> (y < x)%Z) /\
      last (Repair.driftHistory r)
        = Some (total (calculateDrift (Repair.artifact r) None)) /\
      Repair.finalScore r = calculateDrift (Repair.artifact r) None) /\
  (forall text previousArtifact patchRequest st,
      (0 < total (calculateDrift text None))%Z ->
      (Repair.repairEvolve (T := Stub.constant text)
         previousArtifact patchRequest st).1
      = Ok (Repair.MkResult text 1 (calculateDrift text None) false
              [total (calculateDrift text None);
               total (calculateDrift text None)])) /\
  (exists r st',
      Sample.repair_run = (Ok r, st') /\
      Repair.driftHistory r = [5; 2; 7]%Z /\
      Repair.retries r = 2%Z /\
      Repair.artifact r = Sample.attempt3).
Proof.
  split; [|split; [|split]]; cycle 3.
  { eexists _, _. split; [vm_compute; reflexivity|].
    cbn [Repair.driftHistory Repair.retries Repair.artifact].
    split; [reflexivity|]. split; [reflexivity|]. vm_compute. reflexivity. }
  - intros T. apply RepairFacts.repairEvolve_returns.
  - intros T previousArtifact patchRequest st r st' Hrun.
    apply RepairFacts.repairEvolve_Ok in Hrun
      as (a0 & st1 & init & _ & Hret & Hlen & _ & Hfs & _ & Hdh & Hpos & Hdec & _).
    split; [exact Hret|]. split; [exact Hlen|]. split; [lia|].
    rewrite <- Hfs. rewrite Hdh. split; [|split; [|split]].
    + intros j x Hx Hj. rewrite length_app in Hj. simpl in Hj.
      rewrite lookup_app_l in Hx by lia.
      rewrite Forall_forall in Hpos. apply Hpos.
      apply list_elem_of_lookup. by exists j.
    + intros j x y Hx Hy Hj. rewrite length_app in Hj. simpl in Hj.
      rewrite lookup_app_l in Hx by lia. rewrite lookup_app_l in Hy by lia.
      by apply (Hdec j).
    + apply last_snoc.
    + reflexivity.
  - intros text previousArtifact patchRequest st Hpos.
    by rewrite RepairFacts.repairEvolve_constant.
Qed.

Lemma repair_loop_bounded_early_stop_witness :
  (exists r st',
      Sample.repair_run = (Ok r, st') /\
      (0 <= Repair.retries r <= 3)%Z /\
      length (Repair.driftHistory r) <= 4 /\
      last (Repair.driftHistory r)
        = Some (total (calculateDrift (Repair.artifact r) None))) /\
  ((0 < total (calculateDrift [] None))%Z /\
   (Repair.repairEvolve (T := Stub.constant []) [] []
      (MkState (T := Stub.constant []) tt 0 0 0 [])).1
   = Ok (Repair.MkResult [] 1 (calculateDrift [] None) false
           [total (calculateDrift [] None); total (calculateDrift [] None)])).
Proof.
  split.
  - assert (E : exists r st', Sample.repair_run = (Ok r, st'))
      by (eexists _, _; vm_compute; reflexivity).
    destruct E as (r & st' & E). exists r, st'. split; [exact E|].
    pose proof (proj1 (proj2 repair_loop_bounded_early_stop)
                  Stub.scripted _ _ _ r st' E)
      as (H1 & _ & H3 & _ & _ & H6 & _).
    exact (conj H1 (conj H3 H6)).
  - assert (Hpos : (0 < total (calculateDrift [] None))%Z)
      by (vm_compute; reflexivity).
    split; [exact Hpos|].
    exact (proj1 (proj2 (proj2 repair_loop_bounded_early_stop)) [] [] []
             (MkState (T := Stub.constant []) tt 0 0 0 []) Hpos).
Defined.

(** C9.  For [repairEvolve] and for [regenerationEvolve] with retries, a
    returned drift history has exactly [retries + 1] entries, and its
    first entry is the total of the text returned by the initial
    generation call. *)
Theorem drift_history_length_and_first :
  (forall (T : Transport) previousArtifact patchRequest st r st',
      Repair.repairEvolve previousArtifact patchRequest st = (Ok r, st') ->
      Z.of_nat (length (Repair.driftHistory r)) = (Repair.retries r + 1)%Z /\
      exists a0 st1,
        generate (Repair.initialOptions previousArtifact patchRequest) st
          = (Ok a0, st1) /\
        Repair.driftHistory r !! 0 = Some (total (calculateDrift a0 None))) /\
  (forall (T : Transport) blueprint accumulatedPatches lvl st r st',
      Regeneration.regenerationEvolve blueprint accumulatedPatches
        (Regeneration.MkRegenOptions (Some true) lvl) st = (Ok r, st') ->
      Z.of_nat (length (Regeneration.driftHistory r))
        = (Regeneration.retries r + 1)%Z /\
      exists reconciled st1 a0 st2,
        generate (Regeneration.reconcileOptions accumulatedPatches) st
          = (Ok reconciled, st1) /\
        generate (Regeneration.firstOptions blueprint reconciled) st1
          = (Ok a0, st2) /\
        Regeneration.driftHistory r !! 0
          = Some (total (calculateDrift a0 (Some (default low lvl))))).
Proof.
  split.
  - intros T previousArtifact patchRequest st r st' Hrun.
    apply RepairFacts.repairEvolve_Ok in Hrun
      as (a0 & st1 & init & Hgen & _ & Hlen & Hfirst & _).
    split; [exact Hlen|]. by exists a0, st1.
  - intros T blueprint accumulatedPatches lvl st r st' Hrun.
    apply RegenerationFacts.regenerationEvolve_retries_Ok in Hrun
      as (rc & s1 & a0 & s2 & Hrec & Hgen & _ & Hlen & Hfirst & _).
    split; [exact Hlen|]. by exists rc, s1, a0, s2.
Qed.

Lemma drift_history_length_and_first_witness :
  (exists r st',
      Sample.repair_run = (Ok r, st') /\
      Z.of_nat (length (Repair.driftHistory r)) = (Repair.retries r + 1)%Z) /\
  (exists r st',
      Sample.regen_run = (Ok r, st') /\
      Z.of_nat (length (Regeneration.driftHistory r))
        = (Regeneration.retries r + 1)%Z).
Proof.
  split.
  - assert (E : exists r st', Sample.repair_run = (Ok r, st'))
      by (eexists _, _; vm_compute; reflexivity).
    destruct E as (r & st' & E). exists r, st'. split; [exact E|].
    exact (proj1 (proj1 drift_history_length_and_first
                    Stub.scripted _ _ _ r st' E)).
  - assert (E : exists r st', Sample.regen_run = (Ok r, st'))
      by (eexists _, _; vm_compute; reflexivity).
    destruct E as (r & st' & E). exists r, st'. split; [exact E|].
    exact (proj1 (proj2 drift_history_length_and_first
                    Stub.scripted _ _ None _ r st' E)).
Defined.

(** C2, as the code has it (amended).  The flag of a strategy result is
    true exactly when the total of the returned artifact is 0, computed
    at level [low] by [repairEvolve] (which takes no level) and at the
    supplied level by the regeneration strategies.  The runner records
    that flag for repair and the regeneration strategies, next to a
    drift score computed at the supplied level, and records [true] for
    every incremental iteration. *)
Theorem convergence_flag_by_strategy :
  (forall (T : Transport) previousArtifact patchRequest st r st',
      Repair.repairEvolve previousArtifact patchRequest st = (Ok r, st') ->
      Repair.converged r = true <->
      total (calculateDrift (Repair.artifact r) (Some low)) = 0%Z) /\
  (forall (T : Transport) blueprint accumulatedPatches lvl st r st',
      Regeneration.regenerationEvolveSimple blueprint accumulatedPatches lvl st
        = (Ok r, st') ->
      Regeneration.converged r = true <->
      total (calculateDrift (Regeneration.artifact r)
               (Some (default low lvl))) = 0%Z) /\
  (forall (T : Transport) blueprint accumulatedPatches options st r st',
      Regeneration.regenerationEvolve blueprint accumulatedPatches options st
        = (Ok r, st') ->
      Regeneration.converged r = true <->
      total (calculateDrift (Regeneration.artifact r)
               (Some (default low (Regeneration.atypicalityLevel options))))
      = 0%Z) /\
  (forall (T : Transport) options blueprint currentArtifact accumulatedPatches
          patch i st art m st',
      Engine.runIteration options blueprint currentArtifact accumulatedPatches
        patch i st = (Ok (art, m), st') ->
      Store.driftScore m
        = total (calculateDrift art
                   (Some (default low (Engine.atypicalityLevel options)))) /\
      match Engine.strategy options with
      | Engine.incremental => Store.converged m = true
      | Engine.repair =>
          Store.converged m = true <->
          total (calculateDrift art (Some low)) = 0%Z
      | Engine.regeneration | Engine.regen_reconcile | Engine.regen_full =>
          Store.converged m = true <->
          total (calculateDrift art
                   (Some (default low (Engine.atypicalityLevel options))))
          = 0%Z
      end).
Proof.
  split; [|split; [|split]].
  - intros T previousArtifact patchRequest st r st' Hrun.
    apply RepairFacts.repairEvolve_Ok in Hrun
      as (a0 & st1 & init & _ & _ & _ & _ & Hfs & Hconv & _).
    rewrite Hconv, Hfs, EngineFacts.calculateDrift_default.
    apply Z.eqb_eq.
  - intros T blueprint accumulatedPatches lvl st r st' Hrun.
    apply RegenerationFacts.regenerationEvolveSimple_Ok in Hrun
      as (_ & Hfs & Hconv & _).
    rewrite Hconv, Hfs. apply Z.eqb_eq.
  - intros T blueprint accumulatedPatches [[[|]|] lvl] st r st' Hrun.
    + apply RegenerationFacts.regenerationEvolve_retries_Ok in Hrun
        as (rc & s1 & a0 & s2 & _ & _ & _ & _ & _ & Hfs & Hconv & _).
      cbn [Regeneration.atypicalityLevel]. rewrite Hconv, Hfs. apply Z.eqb_eq.
    + apply RegenerationFacts.regenerationEvolve_single_Ok in Hrun
        as (_ & Hfs & Hconv & _); [|reflexivity].
      rewrite Hconv, Hfs. apply Z.eqb_eq.
    + apply RegenerationFacts.regenerationEvolve_single_Ok in Hrun
        as (_ & Hfs & Hconv & _); [|reflexivity].
      rewrite Hconv, Hfs. apply Z.eqb_eq.
  - intros T options blueprint currentArtifact accumulatedPatches patch i st
      art m st' Hrun.
    apply EngineFacts.runIteration_Ok in Hrun as (_ & Hds & Hconv).
    split; [exact Hds | exact Hconv].
Qed.

Lemma convergence_flag_by_strategy_witness :
  exists art m st',
    Sample.regen_full_run = (Ok (art, m), st') /\
    Store.driftScore m = total (calculateDrift art (Some low)) /\
    (Store.converged m = true <-> total (calculateDrift art (Some low)) = 0%Z).
Proof.
  assert (E : exists art m st', Sample.regen_full_run = (Ok (art, m), st'))
    by (eexists _, _, _; vm_compute; reflexivity).
  destruct E as (art & m & st' & E). exists art, m, st'. split; [exact E|].
  exact (proj2 (proj2 (proj2 convergence_flag_by_strategy))
           Stub.scripted _ _ _ _ _ _ _ art m st' E).
Defined.

(** C2 as stated fails.  An incremental iteration whose service answers
    with the empty document records [converged = true] although the
    total of that document is 20; a repair iteration at level [high]
    whose service answers with a document that conforms at level [low]
    records [converged = true] although its total at level [high] is
    not 0. *)
Lemma convergence_flag_counterexample :
  (exists art m st',
      Sample.incremental_run = (Ok (art, m), st') /\
      ~ (Store.converged m = true <->
         total (calculateDrift art (Some low)) = 0%Z)) /\
  (exists art m st',
      Sample.repair_high_run = (Ok (art, m), st') /\
      ~ (Store.converged m = true <->
         total (calculateDrift art (Some high)) = 0%Z)).
Proof.
  split.
  - eexists _, _, _. split; [vm_compute; reflexivity|].
    cbn [Store.converged]. intros [H _]. specialize (H eq_refl).
    revert H. vm_compute. discriminate.
  - eexists _, _, _. split; [vm_compute; reflexivity|].
    cbn [Store.converged]. intros [H _]. specialize (H eq_refl).
    revert H. vm_compute. discriminate.
Qed.

(** ** The drift scorer on the empty document *)

(** C10.  The empty document scores 20 at the default level (and at level
    [low] given explicitly): every one of the 20 vocabulary terms is
    reported with count 0 and contributes 1, and the template, style,
    cross-reference and atypicality sub-scores are 0. *)
Theorem empty_artifact_scores_20 :
  total (calculateDrift [] None) = 20%Z /\
  calculateDrift [] (Some low) = calculateDrift [] None /\
  Vocabulary.violations (vocabulary (calculateDrift [] None)) = 20%Z /\
  Vocabulary.details (vocabulary (calculateDrift [] None))
    = map (fun t => Vocabulary.MkDetail t 0 1) Vocabulary.VOCABULARY /\
  length Vocabulary.VOCABULARY = 20 /\
  Template.violations (template (calculateDrift [] None)) = 0%Z /\
  Style.violations (style (calculateDrift [] None)) = 0%Z /\
  CrossRef.violations (crossRefs (calculateDrift [] None)) = 0%Z /\
  Atypicality.violations (atypicality (calculateDrift [] None)) = 0%Z.
Proof. vm_compute. repeat split. Qed.

(** ** Atypicality at level high *)

Module AtypicalityFacts.
Import Atypicality Spec.

Lemma test_lowerRegex_single (c : char) :
  test lowerRegex [c] = isLower c.
Proof.
  unfold test, exec, lowerRegex, isLower. cbn.
  by destruct (in_range 97 122 c).
Qed.

Lemma stepHigh_spec (acc : AtypicalityResult) (word : jsstring) :
  stepHigh acc word =
    if thirdCharViolation word
    then MkResult (violations acc + 1)
           (push5 (details acc) (js "3rdLetter violation: " ++ word))
    else acc.
Proof.
  unfold stepHigh, thirdCharViolation, charAt.
  destruct word as [|a [|b [|c rest]]]; try reflexivity.
  cbn [length Nat.leb lookup list_lookup].
  change ((a :: b :: c :: rest) !! 2) with (Some c).
  by rewrite test_lowerRegex_single.
Qed.

Lemma foldl_stepHigh (ws : list jsstring) :
  forall acc,
    violations (foldl stepHigh acc ws)
      = (violations acc
         + Z.of_nat (length (List.filter thirdCharViolation ws)))%Z /\
    length (details (foldl stepHigh acc ws))
      = Nat.max (length (details acc))
          (Nat.min 5 (length (details acc)
                      + length (List.filter thirdCharViolation ws))).
Proof.
  induction ws as [|w ws IH]; intros acc.
  - cbn [foldl List.filter length]. split; lia.
  - cbn [foldl List.filter]. rewrite stepHigh_spec.
    destruct (thirdCharViolation w).
    + destruct (IH (MkResult (violations acc + 1)
                      (push5 (details acc) (js "3rdLetter violation: " ++ w))))
        as [Hv Hd].
      rewrite Hv, Hd. cbn [violations details length]. split; [lia|].
      unfold push5. destruct (length (details acc) <? 5) eqn:Hlt.
      * apply Nat.ltb_lt in Hlt. rewrite length_app. cbn [length]. lia.
      * apply Nat.ltb_ge in Hlt. lia.
    + apply IH.
Qed.

End AtypicalityFacts.

(** C7.  At level high the number of violations is the number of word
    tokens that have a third character which is a lowercase letter; a
    word of fewer than three characters never counts.  The detail list
    holds the first five of them at most, the counter is not capped.
    The word "test" is a violation, "teSt" is not. *)
Theorem third_character_violations :
  (forall text,
      Atypicality.violations (Atypicality.validateAtypicality text high)
        = Z.of_nat (length (List.filter Spec.thirdCharViolation
                              (Atypicality.wordsOf text))) /\
      length (Atypicality.details (Atypicality.validateAtypicality text high))
        = Nat.min 5 (length (List.filter Spec.thirdCharViolation
                               (Atypicality.wordsOf text)))) /\
  (forall word, length word < 3 -> Spec.thirdCharViolation word = false) /\
  (forall a b c rest,
      Spec.thirdCharViolation (a :: b :: c :: rest) = isLower c) /\
  Atypicality.violations (Atypicality.validateAtypicality (js "test") high)
    = 1%Z /\
  Atypicality.violations (Atypicality.validateAtypicality (js "teSt") high)
    = 0%Z /\
  Atypicality.violations
    (Atypicality.validateAtypicality Sample.six_words high) = 6%Z /\
  length (Atypicality.details
            (Atypicality.validateAtypicality Sample.six_words high)) = 5.
Proof.
  split; [|split; [|split]].
  - intros text. unfold Atypicality.validateAtypicality.
    destruct (AtypicalityFacts.foldl_stepHigh (Atypicality.wordsOf text)
                (Atypicality.MkResult 0 [])) as [Hv Hd].
    rewrite Hv, Hd. cbn [Atypicality.violations Atypicality.details length].
    split; lia.
  - intros word Hlen.
    destruct word as [|a [|b [|c rest]]]; try reflexivity.
    cbn [length] in Hlen. lia.
  - reflexivity.
  - vm_compute. repeat split.
Qed.

Lemma third_character_violations_witness :
  length (js "is") < 3 /\ Spec.thirdCharViolation (js "is") = false.
Proof.
  assert (H : length (js "is") < 3) by (vm_compute; lia).
  split; [exact H|].
  exact (proj1 (proj2 third_character_violations) (js "is") H).
Defined.

(** ** Vocabulary: matches of a term and its occurrences *)

Module VocabularyFacts.
Import Vocabulary Spec.

Lemma prefix_i_prefix (t s : jsstring) :
  prefix_i t s = true <-> (canonicalize <$> t) `prefix_of` (canonicalize <$> s).
Proof.
  revert s. induction t as [|a t IH]; intros s.
  - split; [intros _; apply prefix_nil | reflexivity].
  - destruct s as [|b s]; cbn [prefix_i fmap list_fmap].
    + split; [discriminate|]. intros H. by apply prefix_nil_not in H.
    + unfold char_eqb_i. rewrite andb_true_iff, N.eqb_eq, IH. split.
      * intros [-> H]. by apply prefix_cons.
      * intros H. split.
        -- symmetry. by apply prefix_cons_inv_1 in H.
        -- by apply prefix_cons_inv_2 in H.
Qed.

(** Two occurrences of a border-free term do not overlap. *)
Lemma no_overlap (t s : jsstring) (j : nat) :
  border_free t = true ->
  prefix_i t s = true ->
  0 < j < length t ->
  prefix_i t (drop j s) = false.
Proof.
  intros Hbf Hp Hj.
  destruct (prefix_i t (drop j s)) eqn:Hq; [exfalso | reflexivity].
  apply prefix_i_prefix in Hp. apply prefix_i_prefix in Hq.
  rewrite fmap_drop in Hq.
  set (T := canonicalize <$> t) in *. set (S := canonicalize <$> s) in *.
  assert (HlenT : length T = length t) by (subst T; apply length_fmap).
  destruct Hp as [k1 Hk1].
  assert (Hd : drop j T `prefix_of` drop j S).
  { exists k1. rewrite Hk1. apply drop_app_le. lia. }
  destruct (prefix_weak_total _ _ _ Hd Hq) as [Hgood | Hbad].
  - unfold border_free in Hbf. rewrite forallb_forall in Hbf.
    specialize (Hbf j). rewrite negb_true_iff in Hbf.
    assert (Hin : In j (seq 1 (length t - 1))) by (apply in_seq; lia).
    specialize (Hbf Hin).
    assert (Htrue : prefix_i (drop j t) t = true).
    { apply prefix_i_prefix. by rewrite fmap_drop. }
    congruence.
  - apply prefix_length in Hbad. rewrite length_drop in Hbad. lia.
Qed.

(** The pattern of a term matches exactly where the term occurs, and
    consumes the length of the term. *)
Lemma literal_match (t : jsstring) :
  forall prv s caps k,
    if prefix_i t s
    then exists p, rmatch (literal true t) (MState prv s caps) k
                   = k (MState p (drop (length t) s) caps)
    else rmatch (literal true t) (MState prv s caps) k = None.
Proof.
  induction t as [|a t IH]; intros prv s caps k.
  - cbn. by exists prv.
  - destruct s as [|b s]; cbn [prefix_i literal rmatch m_rest m_caps];
      [reflexivity|].
    destruct (char_eqb_i b a); cbn [andb]; [|reflexivity].
    specialize (IH (Some b) s caps k).
    destruct (prefix_i t s); [|exact IH].
    destruct IH as [p Hp]. exists p. exact Hp.
Qed.

Lemma prefix_i_length (t s : jsstring) :
  prefix_i t s = true -> length t <= length s.
Proof.
  intros H. apply prefix_i_prefix in H. apply prefix_length in H.
  by rewrite !length_fmap in H.
Qed.

Lemma match_here_literal (t : jsstring) prv s :
  if prefix_i t s
  then exists e, match_here (literal true t) prv s = Some e /\
                 match_len s e = length t
  else match_here (literal true t) prv s = None.
Proof.
  unfold match_here.
  pose proof (literal_match t prv s [] Some) as H.
  destruct (prefix_i t s) eqn:Hp; [|exact H].
  destruct H as [p Hp']. eexists. split; [exact Hp'|].
  unfold match_len. cbn [m_rest]. rewrite length_drop.
  apply prefix_i_length in Hp. lia.
Qed.

(** The global scan of a border-free term finds every occurrence. *)
Lemma scan_literal_count (t : jsstring) :
  t <> [] ->
  border_free t = true ->
  forall s prv i skip,
    (forall j, j < skip -> prefix_i t (drop j s) = false) ->
    length (scan (literal true t) prv s i skip) = occurrences t s.
Proof.
  intros Hne Hbf. induction s as [|c s IH]; intros prv i skip Hskip.
  - assert (Hp : prefix_i t [] = false) by (destruct t; [done | reflexivity]).
    cbn [scan occurrences]. rewrite Hp.
    destruct skip; [|reflexivity].
    pose proof (match_here_literal t prv []) as H. rewrite Hp in H.
    by rewrite H.
  - cbn [scan occurrences]. destruct skip as [|n].
    + pose proof (match_here_literal t prv (c :: s)) as H.
      destruct (prefix_i t (c :: s)) eqn:Hp.
      * destruct H as (e & -> & Hlen). cbn [length]. rewrite Hlen.
        f_equal. apply IH. intros j Hj.
        change (drop j s) with (drop (S j) (c :: s)).
        apply no_overlap; [exact Hbf | exact Hp | lia].
      * rewrite H. apply IH. intros j Hj. lia.
    + pose proof (Hskip 0 ltac:(lia)) as H0. cbn [drop] in H0.
      rewrite H0. cbn [Nat.add]. apply IH.
      intros j Hj. change (drop j s) with (drop (S j) (c :: s)).
      apply Hskip. lia.
Qed.

Lemma countMatches_occurrences (t text : jsstring) :
  t <> [] ->
  border_free t = true ->
  countMatches t text = Z.of_nat (occurrences t text).
Proof.
  intros Hne Hbf. unfold countMatches, termRegex, matchAll.
  rewrite (scan_literal_count t Hne Hbf); [reflexivity|].
  intros j Hj. lia.
Qed.

(** Every term of the vocabulary is non-empty and border-free. *)
Lemma VOCABULARY_border_free :
  Forall (fun t => t <> [] /\ border_free t = true) VOCABULARY.
Proof.
  assert (H : forallb (fun t => negb (jsstring_eqb t []) && border_free t)
                VOCABULARY = true) by (vm_compute; reflexivity).
  rewrite forallb_forall in H. apply Forall_forall. intros t Hin.
  apply list_elem_of_In in Hin. specialize (H t Hin).
  apply andb_true_iff in H as [H1 H2]. split; [|exact H2].
  intros ->. discriminate.
Qed.

(** The loop adds [abs(count - 1)] for every term. *)
Lemma foldl_step_violations (text : jsstring) (terms : list jsstring) :
  forall acc,
    violations (foldl (step text) acc terms)
    = (violations acc
       + Zsum (map (fun t => Z.abs (countMatches t text - 1)) terms))%Z.
Proof.
  induction terms as [|t terms IH]; intros acc.
  - cbn. lia.
  - cbn [foldl map Zsum foldr]. rewrite IH. unfold step.
    destruct (countMatches t text =? 1)%Z eqn:Hc; cbn [negb violations].
    + apply Z.eqb_eq in Hc. rewrite Hc. fold (Zsum (map (fun t0 => Z.abs (countMatches t0 text - 1)) terms)). lia.
    + fold (Zsum (map (fun t0 => Z.abs (countMatches t0 text - 1)) terms)). lia.
Qed.

Lemma validateVocabulary_sum (text : jsstring) :
  violations (validateVocabulary text)
  = Zsum (map (fun t => Z.abs (Z.of_nat (occurrences t text) - 1)) VOCABULARY).
Proof.
  unfold validateVocabulary. rewrite foldl_step_violations.
  cbn [violations]. rewrite Z.add_0_l. f_equal.
  apply map_ext_in. intros t Hin.
  pose proof VOCABULARY_border_free as H. rewrite Forall_forall in H.
  destruct (H t) as [Hne Hbf]; [by apply list_elem_of_In|].
  by rewrite countMatches_occurrences.
Qed.

End VocabularyFacts.

(** C5.  For every text, the violations of the Vocabulary Validator are
    the sum over the 20 terms of [abs(count - 1)], where [count], the
    number of matches the code finds, is the number of positions at
    which the term occurs as a substring, letter case ignored.  A text
    in which "PKI" occurs twice, "MFA" never and every other term once
    has exactly 2 violations; a text in which every term occurs once
    has none. *)
Theorem vocabulary_violations_sum :
  length Vocabulary.VOCABULARY = 20 /\
  (forall text t,
      t ∈ Vocabulary.VOCABULARY ->
      Vocabulary.countMatches t text = Z.of_nat (Spec.occurrences t text)) /\
  (forall text,
      Vocabulary.violations (Vocabulary.validateVocabulary text)
      = Spec.Zsum (map (fun t => Z.abs (Z.of_nat (Spec.occurrences t text) - 1))
                     Vocabulary.VOCABULARY)) /\
  (forall text,
      Spec.occurrences (js "PKI") text = 2 ->
      Spec.occurrences (js "MFA") text = 0 ->
      (forall t, t ∈ Vocabulary.VOCABULARY ->
                 t <> js "PKI" -> t <> js "MFA" ->
                 Spec.occurrences t text = 1) ->
      Vocabulary.violations (Vocabulary.validateVocabulary text) = 2%Z) /\
  (forall text,
      (forall t, t ∈ Vocabulary.VOCABULARY -> Spec.occurrences t text = 1) ->
      Vocabulary.violations (Vocabulary.validateVocabulary text) = 0%Z).
Proof.
  split; [reflexivity|]. split; [|split; [|split]].
  - intros text t Hin.
    pose proof VocabularyFacts.VOCABULARY_border_free as H.
    rewrite Forall_forall in H. destruct (H t Hin) as [Hne Hbf].
    by apply VocabularyFacts.countMatches_occurrences.
  - apply VocabularyFacts.validateVocabulary_sum.
  - intros text Hpki Hmfa Hrest.
    rewrite VocabularyFacts.validateVocabulary_sum.
    transitivity
      (Spec.Zsum
         (map (fun t => if decide (t = js "PKI") then 1%Z
                        else if decide (t = js "MFA") then 1%Z else 0%Z)
              Vocabulary.VOCABULARY)); [|vm_compute; reflexivity].
    f_equal. apply map_ext_in. intros t Hin. apply list_elem_of_In in Hin.
    destruct (decide (t = js "PKI")) as [->|Hn1]; [by rewrite Hpki|].
    destruct (decide (t = js "MFA")) as [->|Hn2]; [by rewrite Hmfa|].
    by rewrite Hrest.
  - intros text Hall.
    rewrite VocabularyFacts.validateVocabulary_sum.
    transitivity (Spec.Zsum (map (fun _ : jsstring => 0%Z) Vocabulary.VOCABULARY));
      [|vm_compute; reflexivity].
    f_equal. apply map_ext_in. intros t Hin. apply list_elem_of_In in Hin.
    by rewrite Hall.
Qed.

Lemma vocabulary_violations_sum_witness :
  (Spec.occurrences (js "PKI") Sample.pki_twice_no_mfa = 2 /\
   Spec.occurrences (js "MFA") Sample.pki_twice_no_mfa = 0 /\
   Vocabulary.violations (Vocabulary.validateVocabulary Sample.pki_twice_no_mfa)
   = 2%Z) /\
  Vocabulary.violations (Vocabulary.validateVocabulary Sample.conforming) = 0%Z.
Proof.
  assert (Hpki : Spec.occurrences (js "PKI") Sample.pki_twice_no_mfa = 2)
    by (vm_compute; reflexivity).
  assert (Hmfa : Spec.occurrences (js "MFA") Sample.pki_twice_no_mfa = 0)
    by (vm_compute; reflexivity).
  split; [split; [exact Hpki | split; [exact Hmfa|]]|].
  - apply (proj1 (proj2 (proj2 (proj2 vocabulary_violations_sum)))
             Sample.pki_twice_no_mfa Hpki Hmfa).
    intros t Hin Hn1 Hn2. unfold Vocabulary.VOCABULARY in Hin.
    cbn [map] in Hin.
    repeat (apply elem_of_cons in Hin as [-> | Hin];
            [first [ vm_compute; reflexivity | exfalso; by auto ] |]).
    by apply elem_of_nil in Hin.
  - apply (proj2 (proj2 (proj2 (proj2 vocabulary_violations_sum)))
             Sample.conforming).
    intros t Hin. unfold Vocabulary.VOCABULARY in Hin. cbn [map] in Hin.
    repeat (apply elem_of_cons in Hin as [-> | Hin];
            [vm_compute; reflexivity |]).
    by apply elem_of_nil in Hin.
Defined.

(** ** Style: the loop, the ratio and the counting of words *)

Module StyleFacts.
Import Style Spec.

(** The loop counts the long and the short sentences. *)
Lemma foldl_step_counts (ss : list jsstring) :
  forall acc,
    acc_long (foldl step acc ss)
    = (acc_long acc
       + Z.of_nat (length (List.filter (fun s => (25 <? countWords s)%Z) ss)))%Z /\
    acc_short (foldl step acc ss)
    = (acc_short acc
       + Z.of_nat (length (List.filter (fun s => (countWords s <=? 12)%Z) ss)))%Z.
Proof.
  induction ss as [|s ss IH]; intros acc.
  - cbn. split; lia.
  - cbn [foldl List.filter]. destruct (IH (step acc s)) as [Hl Hs].
    rewrite Hl, Hs. unfold step, MAX_WORDS, SHORT_THRESHOLD.
    rewrite Z.gtb_ltb.
    destruct (25 <? countWords s)%Z eqn:H25;
      destruct (countWords s <=? 12)%Z eqn:H12;
      cbn [acc_long acc_short length]; split; lia.
Qed.

(** The separator [\s+] does not match at a character that is not
    whitespace, and consumes one character at a single space followed by
    such a character. *)
Lemma no_separator_at (prv : option char) (c : char) (s : jsstring) :
  isWhiteSpace c = false ->
  match_here (RRep isWhiteSpace 1 None) prv (c :: s) = None.
Proof. intros Hc. unfold match_here. cbn. by rewrite Hc. Qed.

Lemma separator_single_space (prv : option char) (c : char) (s : jsstring) :
  isWhiteSpace c = false ->
  exists e, match_here (RRep isWhiteSpace 1 None) prv (32%N :: c :: s) = Some e /\
            match_len (32%N :: c :: s) e = 1.
Proof.
  intros Hc. unfold match_here. cbn. rewrite Hc. cbn.
  eexists. split; [reflexivity|]. unfold match_len. cbn [m_rest length]. lia.
Qed.

Lemma split_go_cons_0 (r : regex) prv c s acc :
  split_go r prv (c :: s) 0 acc =
    match match_here r prv (c :: s) with
    | Some e =>
        match match_len (c :: s) e with
        | 0 =>
            match acc with
            | [] => split_go r (Some c) s 0 [c]
            | _ :: _ => rev acc :: split_go r (Some c) s 0 [c]
            end
        | S n => rev acc :: split_go r (Some c) s n []
        end
    | None => split_go r (Some c) s 0 (c :: acc)
    end.
Proof. reflexivity. Qed.

Lemma isWord_inv (w : jsstring) :
  isWord w = true ->
  exists c w', w = c :: w' /\ isWhiteSpace c = false /\
               forallb (fun c => negb (isWhiteSpace c)) w' = true.
Proof.
  unfold isWord. intros H. apply andb_true_iff in H as [Hne Hall].
  destruct w as [|c w']; [discriminate|].
  cbn [forallb] in Hall. apply andb_true_iff in Hall as [Hc Hall].
  exists c, w'. split; [reflexivity|]. split; [|exact Hall].
  by apply negb_true_iff.
Qed.

(** The characters of a word are collected into the current piece. *)
Lemma split_go_word (w : jsstring) :
  forallb (fun c => negb (isWhiteSpace c)) w = true ->
  forall prv s acc,
    exists prv',
      split_go (RRep isWhiteSpace 1 None) prv (w ++ s) 0 acc
      = split_go (RRep isWhiteSpace 1 None) prv' s 0 (rev w ++ acc).
Proof.
  induction w as [|c w IH]; intros Hall prv s acc.
  - by exists prv.
  - cbn [forallb] in Hall. apply andb_true_iff in Hall as [Hc Hall].
    apply negb_true_iff in Hc.
    cbn [app]. rewrite split_go_cons_0, (no_separator_at prv c (w ++ s) Hc).
    destruct (IH Hall (Some c) s (c :: acc)) as [prv' Hprv'].
    exists prv'. rewrite Hprv'. cbn [rev]. by rewrite <- app_assoc.
Qed.

(** Every further word, after its space, adds one piece. *)
Lemma split_go_words (rest : list jsstring) :
  Forall (fun w => isWord w = true) rest ->
  forall prv acc,
    length (split_go (RRep isWhiteSpace 1 None) prv
              (concat (map (fun x => 32%N :: x) rest)) 0 acc)
    = S (length rest).
Proof.
  induction rest as [|w rest IH]; intros Hall prv acc.
  - reflexivity.
  - inversion Hall as [|w0 rest0 Hw Hrest]; subst.
    destruct (isWord_inv w Hw) as (c & w' & -> & Hc & Hw').
    cbn [map concat app].
    destruct (separator_single_space prv c
                (w' ++ concat (map (fun x => 32%N :: x) rest)) Hc)
      as (e & He & Hlen).
    rewrite split_go_cons_0, He, Hlen. cbn [length]. f_equal.
    destruct (split_go_word (c :: w')
                ltac:(cbn [forallb]; rewrite Hc; exact Hw')
                (Some 32%N)
                (concat (map (fun x => 32%N :: x) rest)) [])
      as [prv' Hprv'].
    cbn [app] in Hprv'. rewrite Hprv'. apply IH. exact Hrest.
Qed.

(** Words joined by single spaces are counted one by one. *)
Lemma countWords_joinWords (words : list jsstring) :
  words <> [] ->
  Forall (fun w => isWord w = true) words ->
  countWords (joinWords words) = Z.of_nat (length words).
Proof.
  intros Hne Hall. destruct words as [|w rest]; [done|].
  inversion Hall as [|w0 rest0 Hw Hrest]; subst.
  destruct (isWord_inv w Hw) as (c & w' & -> & Hc & Hw').
  unfold countWords, joinWords, split. cbn [app].
  destruct (split_go_word (c :: w')
              ltac:(cbn [forallb]; rewrite Hc; exact Hw')
              None (concat (map (fun x => 32%N :: x) rest)) [])
    as [prv' Hprv'].
  cbn [app] in Hprv'. rewrite Hprv'.
  by rewrite (split_go_words rest Hrest).
Qed.

Lemma validateStyle_spec (text : jsstring) :
  totalSentences (validateStyle text)
    = Z.of_nat (length (sentencesOf text)) /\
  longSentences (validateStyle text) = longCount text /\
  shortRatio (validateStyle text) = shortRatioOf text /\
  violations (validateStyle text)
    = (longSentences (validateStyle text)
       + ratioPenalty (shortRatio (validateStyle text)))%Z.
Proof.
  unfold validateStyle, longCount, shortRatioOf, shortCount, ratioPenalty,
    penalty.
  destruct (foldl_step_counts (sentencesOf text) (MkAcc [] 0 0)) as [Hl Hs].
  cbn [acc_long acc_short] in Hl, Hs. rewrite Z.add_0_l in Hl, Hs.
  cbn [totalSentences longSentences shortRatio violations].
  rewrite Hl, Hs. clear Hl Hs.
  generalize (Z.of_nat (length (List.filter
                (fun s => (countWords s <=? 12)%Z) (sentencesOf text)))).
  generalize (Z.of_nat (length (List.filter
                (fun s => (25 <? countWords s)%Z) (sentencesOf text)))).
  intros long short.
  assert (Hn : (Z.of_nat (length (sentencesOf text)) >? 0)%Z
               = match sentencesOf text with [] => false | _ :: _ => true end).
  { destruct (sentencesOf text); [reflexivity|].
    cbn [length]. rewrite Z.gtb_ltb. apply Z.ltb_lt. lia. }
  rewrite Hn. clear Hn.
  generalize (Double.ofZ (Z.of_nat (length (sentencesOf text)))).
  intros n.
  destruct (sentencesOf text) as [|s0 ss].
  - split; [reflexivity|]. split; [reflexivity|]. split; [reflexivity|].
    destruct (Double.ltb _ _); lia.
  - split; [reflexivity|]. split; [reflexivity|]. split; [reflexivity|].
    destruct (Double.ltb _ _); lia.
Qed.

(** Float and exact penalty agree for up to 100 sentences. *)
Lemma penalties_agree_100 : penalties_agree 100 = true.
Proof. vm_compute. reflexivity. Qed.

Lemma penalties_agree_spec (bound short n : nat) :
  penalties_agree bound = true ->
  1 <= n <= bound -> short <= n ->
  ratioPenalty (Double.div (Double.ofZ (Z.of_nat short))
                  (Double.ofZ (Z.of_nat n)))
  = exactPenalty (Z.of_nat short) (Z.of_nat n).
Proof.
  intros H Hn Hs.
  unfold penalties_agree in H. rewrite forallb_forall in H.
  specialize (H n ltac:(apply in_seq; lia)).
  rewrite forallb_forall in H.
  specialize (H short ltac:(apply in_seq; lia)).
  by apply Z.eqb_eq in H.
Qed.

Lemma ratioPenalty_exact (short n : nat) :
  1 <= n <= 100 -> short <= n ->
  ratioPenalty (Double.div (Double.ofZ (Z.of_nat short))
                  (Double.ofZ (Z.of_nat n)))
  = exactPenalty (Z.of_nat short) (Z.of_nat n).
Proof. exact (penalties_agree_spec 100 short n penalties_agree_100). Qed.

End StyleFacts.

(** C6.  For every text the Style Validator reports as [longSentences]
    the number of sentences of more than 25 words, as [shortRatio] the
    fraction of sentences of at most 12 words (1.0 when there is no
    sentence), and as violations
    [longSentences + (shortRatio < 0.7 ? ceil((0.7 - shortRatio) * 10) : 0)],
    all in binary64 arithmetic.  A sentence of [k] words joined by single
    spaces has word count [k], so it is long at 26 words and not at 25.
    For up to 100 sentences the penalty is the exact
    [ceil((7 n - 10 short) / n)]. *)
Theorem style_violations_formula :
  (forall text,
      Style.totalSentences (Style.validateStyle text)
        = Z.of_nat (length (Style.sentencesOf text)) /\
      Style.longSentences (Style.validateStyle text) = Spec.longCount text /\
      Style.shortRatio (Style.validateStyle text) = Spec.shortRatioOf text /\
      Style.violations (Style.validateStyle text)
        = (Style.longSentences (Style.validateStyle text)
           + Spec.ratioPenalty (Style.shortRatio (Style.validateStyle text)))%Z) /\
  (forall words,
      words <> [] ->
      Forall (fun w => Spec.isWord w = true) words ->
      Style.countWords (Spec.joinWords words) = Z.of_nat (length words)) /\
  (forall short n,
      1 <= n <= 100 -> short <= n ->
      Spec.ratioPenalty (Double.div (Double.ofZ (Z.of_nat short))
                           (Double.ofZ (Z.of_nat n)))
      = Spec.exactPenalty (Z.of_nat short) (Z.of_nat n)) /\
  Style.longSentences (Style.validateStyle (Sample.sentence_of 26)) = 1%Z /\
  Style.longSentences (Style.validateStyle (Sample.sentence_of 25)) = 0%Z /\
  Style.shortRatio (Style.validateStyle []) = Double.ofZ 1 /\
  Style.violations (Style.validateStyle []) = 0%Z.
Proof.
  split; [|split; [|split]].
  - apply StyleFacts.validateStyle_spec.
  - apply StyleFacts.countWords_joinWords.
  - apply StyleFacts.ratioPenalty_exact.
  - vm_compute. repeat split.
Qed.

Lemma style_violations_formula_witness :
  (replicate 26 (js "word") <> [] /\
   Style.countWords (Spec.joinWords (replicate 26 (js "word"))) = 26%Z) /\
  (1 <= 5 <= 100 /\ 3 <= 5 /\
   Spec.ratioPenalty (Double.div (Double.ofZ 3) (Double.ofZ 5)) = 1%Z).
Proof.
  split.
  - assert (Hne : replicate 26 (js "word") <> []) by (vm_compute; discriminate).
    split; [exact Hne|].
    refine (proj1 (proj2 style_violations_formula) _ Hne _).
    repeat constructor.
  - assert (Hn : 1 <= 5 <= 100) by lia.
    assert (Hs : 3 <= 5) by lia.
    split; [exact Hn|]. split; [exact Hs|].
    exact (proj1 (proj2 (proj2 style_violations_formula)) 3 5 Hn Hs).
Defined.

(** ** Regular expressions: repetition and scanning *)

Module RegexFacts.

Lemma rep_sound (p : char -> bool) (s : jsstring) :
  forall lo hi prv caps k r,
    rep p lo hi prv s caps k = Some r ->
    exists a s',
      s = a ++ s' /\ forallb p a = true /\ lo <= length a /\
      hi_ok hi (length a) /\
      k (MState (lastor prv a) s' caps) = Some r.
Proof.
  induction s as [|c s IH]; intros lo hi prv caps k r H.
  - cbn [rep] in H. destruct lo; [|discriminate].
    exists [], []. repeat split; [lia | by destruct hi; cbn; lia | exact H].
  - cbn [rep] in H.
    assert (Hstop :
      match lo with 0 => k (MState prv (c :: s) caps) | S _ => None end
      = Some r ->
      exists a s', c :: s = a ++ s' /\ forallb p a = true /\ lo <= length a /\
                   hi_ok hi (length a) /\
                   k (MState (lastor prv a) s' caps) = Some r).
    { intros Hs. destruct lo; [|discriminate].
      exists [], (c :: s).
      repeat split; [lia | by destruct hi; cbn; lia | exact Hs]. }
    destruct (p c && hi_allows hi) eqn:Hc; [|by apply Hstop].
    apply andb_true_iff in Hc as [Hpc Hhi].
    destruct (rep p (pred lo) (hi_pred hi) (Some c) s caps k) as [r'|] eqn:Hr;
      [|by apply Hstop].
    inversion H; subst r'. clear H.
    apply IH in Hr as (a & s' & -> & Ha & Hlo & Hhi' & Hk).
    exists (c :: a), s'. cbn [forallb length lastor app].
    rewrite Hpc, Ha. repeat split; [lia | | exact Hk].
    destruct hi as [[|h]|]; cbn in *; try discriminate; lia.
Qed.

Lemma rep_greedy (p : char -> bool) (a : jsstring) :
  forall s' lo hi prv caps k r,
    forallb p a = true ->
    stops p s' = true ->
    lo <= length a ->
    hi_ok hi (length a) ->
    k (MState (lastor prv a) s' caps) = Some r ->
    rep p lo hi prv (a ++ s') caps k = Some r.
Proof.
  induction a as [|c a IH]; intros s' lo hi prv caps k r Ha Hs Hlo Hhi Hk.
  - cbn [length] in Hlo. assert (lo = 0) as -> by lia.
    cbn [app lastor] in *. destruct s' as [|c t]; [exact Hk|].
    cbn [rep]. cbn [stops] in Hs. apply negb_true_iff in Hs.
    rewrite Hs. exact Hk.
  - cbn [forallb] in Ha. apply andb_true_iff in Ha as [Hpc Ha].
    cbn [app rep]. rewrite Hpc.
    assert (Hal : hi_allows hi = true).
    { destruct hi as [[|h]|]; cbn in *; [lia | reflexivity | reflexivity]. }
    rewrite Hal. cbn [andb].
    rewrite (IH s' (pred lo) (hi_pred hi) (Some c) caps k r); try assumption.
    + reflexivity.
    + cbn [length] in Hlo. lia.
    + destruct hi as [h|]; cbn in *; lia.
Qed.

(** A repetition that must take one character fails at a character
    outside its class. *)
Lemma rep_one_fails (p : char -> bool) hi prv c s caps k :
  p c = false ->
  rep p 1 hi prv (c :: s) caps k = None.
Proof. intros Hc. cbn [rep]. by rewrite Hc. Qed.

Lemma rep_one_fails_nil (p : char -> bool) hi prv caps k :
  rep p 1 hi prv [] caps k = None.
Proof. reflexivity. Qed.

Lemma forallb_imp (p q : char -> bool) (a : jsstring) :
  (forall c, p c = true -> q c = true) ->
  forallb p a = true -> forallb q a = true.
Proof.
  intros Hpq. induction a as [|c a IH]; [reflexivity|].
  cbn [forallb]. intros H. apply andb_true_iff in H as [Hc Ha].
  by rewrite (Hpq c Hc), IH.
Qed.

Lemma lastor_app (prv : option char) (a : jsstring) (c : char) :
  lastor prv (a ++ [c]) = Some c.
Proof. revert prv. induction a as [|x a IH]; intros prv; [reflexivity|]. apply IH. Qed.

Lemma lastor_app2 (prv : option char) (a b : jsstring) :
  lastor prv (a ++ b) = lastor (lastor prv a) b.
Proof. revert prv. induction a as [|x a IH]; intros prv; [reflexivity|]. apply IH. Qed.

(** Every match the scan reports is a match of the pattern at its
    position. *)
Lemma scan_sound (r : regex) (s : jsstring) :
  forall prv i skip m,
    m ∈ scan r prv s i skip ->
    exists pre suf e,
      s = pre ++ suf /\ skip <= length pre /\
      match_here r (lastor prv pre) suf = Some e /\
      m = mk_match (i + length pre) suf e.
Proof.
  induction s as [|c s IH]; intros prv i skip m Hm.
  - cbn [scan] in Hm. destruct skip; [|by apply elem_of_nil in Hm].
    destruct (match_here r prv []) as [e|] eqn:He;
      [|by apply elem_of_nil in Hm].
    apply list_elem_of_singleton in Hm. subst m.
    exists [], [], e. cbn [length lastor app]. rewrite Nat.add_0_r.
    repeat split; [lia | exact He].
  - cbn [scan] in Hm.
    assert (Hrec : forall n,
      m ∈ scan r (Some c) s (S i) n ->
      exists pre suf e,
        c :: s = pre ++ suf /\ S n <= length pre /\
        match_here r (lastor prv pre) suf = Some e /\
        m = mk_match (i + length pre) suf e).
    { intros n Hin. apply IH in Hin as (pre & suf & e & -> & Hsk & He & ->).
      exists (c :: pre), suf, e. cbn [length lastor app].
      repeat split; [lia | exact He | f_equal; lia]. }
    destruct skip as [|n].
    + destruct (match_here r prv (c :: s)) as [e|] eqn:He.
      * apply elem_of_cons in Hm as [-> | Hm].
        -- exists [], (c :: s), e. cbn [length lastor app].
           rewrite Nat.add_0_r. repeat split; [lia | exact He].
        -- apply Hrec in Hm as (pre & suf & e' & Hs & Hsk & He' & ->).
           exists pre, suf, e'. repeat split; [exact Hs | lia | exact He'].
      * apply Hrec in Hm as (pre & suf & e' & Hs & Hsk & He' & ->).
        exists pre, suf, e'. repeat split; [exact Hs | lia | exact He'].
    + apply Hrec in Hm as (pre & suf & e' & Hs & Hsk & He' & ->).
      exists pre, suf, e'. repeat split; [exact Hs | lia | exact He'].
Qed.

(** For a pattern without overlapping matches the scan reports every
    position at which the pattern matches. *)
Lemma scan_complete (r : regex) :
  NoOverlap r ->
  forall s prv i skip pre suf e,
    s = pre ++ suf ->
    skip <= length pre ->
    match_here r (lastor prv pre) suf = Some e ->
    mk_match (i + length pre) suf e ∈ scan r prv s i skip.
Proof.
  intros Hno. induction s as [|c s IH];
    intros prv i skip pre suf e Hs Hskip He.
  - symmetry in Hs. apply app_eq_nil in Hs as [-> ->].
    cbn [length] in Hskip. assert (skip = 0) as -> by lia.
    cbn [scan lastor length] in *. rewrite He, Nat.add_0_r.
    by apply list_elem_of_singleton.
  - cbn [scan]. destruct pre as [|x pre].
    + cbn [length] in Hskip. assert (skip = 0) as -> by lia.
      cbn [app lastor length] in *. subst suf. rewrite He, Nat.add_0_r.
      by apply elem_of_cons; left.
    + cbn [app] in Hs. injection Hs as <- ->.
      cbn [lastor length] in *.
      replace (i + S (length pre)) with (S i + length pre) by lia.
      destruct skip as [|n].
      * destruct (match_here r prv (c :: pre ++ suf)) as [e0|] eqn:He0.
        -- apply elem_of_cons; right. apply IH; [reflexivity | | exact He].
           destruct (decide (S (length pre) < match_len (c :: pre ++ suf) e0))
             as [Hin|Hout]; [|lia].
           exfalso.
           pose proof (Hno prv (c :: pre ++ suf) e0 He0 (c :: pre) suf
                         eq_refl) as Hnone.
           cbn [length lastor] in Hnone.
           rewrite Hnone in He by lia. discriminate.
        -- apply IH; [reflexivity | lia | exact He].
      * apply IH; [reflexivity | lia | exact He].
Qed.

End RegexFacts.

(** ** Headings: the Template pattern and the Cross-Reference pattern *)

Module HeadingFacts.
Import RegexFacts.

(** What a match of the Template pattern looks like. *)
Lemma template_heading_shape prv s e :
  match_here Template.sectionRegex prv s = Some e ->
  at_bol (MState prv s []) = true /\
  exists h w d c u,
    s = h ++ w ++ d ++ chr "." :: c :: u ++ m_rest e /\
    forallb isHash h = true /\ 1 <= length h <= 2 /\
    forallb isWhiteSpace w = true /\ 1 <= length w /\
    forallb isDigit d = true /\ 1 <= length d /\
    isWhiteSpace c = true.
Proof.
  unfold match_here, Template.sectionRegex.
  cbn [rseq foldr rmatch m_prev m_rest m_caps].
  intros H.
  destruct (at_bol _) eqn:Hb; [|discriminate]. split; [reflexivity|].
  apply rep_sound in H as (h & s1 & -> & Hh & Hh1 & Hh2 & H).
  cbn [m_prev m_rest m_caps] in H.
  apply rep_sound in H as (w & s2 & -> & Hw & Hw1 & _ & H).
  cbn [m_prev m_rest m_caps] in H.
  apply rep_sound in H as (d & s3 & -> & Hd & Hd1 & _ & H).
  cbn [m_prev m_rest m_caps] in H.
  destruct s3 as [|c0 s4]; [discriminate|].
  destruct (isPeriod c0) eqn:Hdot; [|discriminate].
  apply N.eqb_eq in Hdot. subst c0.
  apply rep_sound in H as (a4 & s5 & -> & Ha4 & Ha41 & _ & H).
  cbn [m_prev m_rest m_caps] in H.
  apply rep_sound in H as (a5 & s6 & -> & Ha5 & _ & _ & H).
  cbn [m_prev m_rest m_caps] in H.
  destruct (at_eol _); [|discriminate]. injection H as <-. cbn [m_rest].
  destruct a4 as [|c a4]; [cbn [length] in Ha41; lia|].
  cbn [forallb] in Ha4. apply andb_true_iff in Ha4 as [Hc Ha4].
  exists h, w, d, c, (a4 ++ a5).
  split; [by rewrite <- !app_assoc|].
  cbn [hi_ok] in Hh2. repeat split; try assumption; lia.
Qed.

(** The character classes of the heading patterns are disjoint. *)
Ltac class_props H :=
  unfold isWhiteSpace, isDigit, isLineTerminator, in_range, char_eqb in H;
  change (chr "#") with 35%N in H; change (chr ".") with 46%N in H;
  rewrite ?orb_true_iff, ?andb_true_iff, ?N.leb_le, ?N.eqb_eq in H.

Ltac class_false :=
  let Hq := fresh "Hq" in
  apply not_true_iff_false; intros Hq;
  repeat match goal with
         | H : _ = true |- _ => progress class_props H
         end;
  lia.

Lemma ws_not_hash c : isWhiteSpace c = true -> isHash c = false.
Proof. intros H. class_false. Qed.

Lemma ws_not_digit c : isWhiteSpace c = true -> isDigit c = false.
Proof. intros H. class_false. Qed.

Lemma digit_not_ws c : isDigit c = true -> isWhiteSpace c = false.
Proof. intros H. class_false. Qed.

Lemma digit_not_hash c : isDigit c = true -> isHash c = false.
Proof. intros H. class_false. Qed.

Lemma takeWhile_dropWhile (p : char -> bool) (s : jsstring) :
  s = takeWhile p s ++ dropWhile p s /\
  forallb p (takeWhile p s) = true /\
  stops p (dropWhile p s) = true.
Proof.
  induction s as [|c s (IH1 & IH2 & IH3)]; [done|].
  cbn [takeWhile dropWhile]. destruct (p c) eqn:Hc.
  - cbn [app forallb]. rewrite Hc, IH2. by rewrite <- IH1.
  - cbn [app forallb stops]. by rewrite Hc.
Qed.

Lemma take_app_diff (a b : jsstring) :
  take (length (a ++ b) - length b) (a ++ b) = a.
Proof.
  rewrite length_app. replace (length a + length b - length b) with (length a)
    by lia.
  apply take_app_length.
Qed.

(** Where the Template pattern matches, the Cross-Reference pattern
    matches too and captures the digits of the heading. *)
Lemma crossref_matches_heading prv h w d c t :
  at_bol (MState prv (h ++ w ++ d ++ chr "." :: c :: t) []) = true ->
  forallb isHash h = true -> 1 <= length h <= 2 ->
  forallb isWhiteSpace w = true -> 1 <= length w ->
  forallb isDigit d = true -> 1 <= length d ->
  isWhiteSpace c = true ->
  exists e',
    match_here CrossRef.sectionRegex prv (h ++ w ++ d ++ chr "." :: c :: t)
      = Some e' /\
    m_caps e' = [d].
Proof.
  intros Hb Hh Hh1 Hw Hw1 Hd Hd1 Hc.
  unfold match_here, CrossRef.sectionRegex, CrossRef.numberPattern.
  cbn [rseq foldr rmatch m_prev m_rest m_caps]. rewrite Hb.
  destruct w as [|cw w]; [cbn [length] in Hw1; lia|].
  destruct d as [|cd d]; [cbn [length] in Hd1; lia|].
  pose proof Hw as Hw'. cbn [forallb] in Hw'.
  apply andb_true_iff in Hw' as [Hcw _].
  pose proof Hd as Hd'. cbn [forallb] in Hd'.
  apply andb_true_iff in Hd' as [Hcd _].
  destruct (takeWhile_dropWhile isWhiteSpace (c :: t)) as (Hsplit & Hall & Hstop).
  eexists. split.
  - apply rep_greedy; [exact Hh | | lia | cbn [hi_ok]; lia |].
    { cbn [app stops]. by rewrite (ws_not_hash cw Hcw). }
    cbn [m_prev m_rest m_caps].
    apply rep_greedy; [exact Hw | | lia | exact I |].
    { cbn [app stops]. by rewrite (digit_not_ws cd Hcd). }
    cbn [m_prev m_rest m_caps].
    apply rep_greedy; [exact Hd | | lia | exact I |].
    { cbn [stops]. reflexivity. }
    cbn [m_prev m_rest m_caps].
    change (isPeriod (chr ".")) with true. cbv iota.
    rewrite (rep_one_fails isDigit None (Some (chr ".")) c t
               _ _ (ws_not_digit c Hc)).
    rewrite Hsplit.
    apply rep_greedy; [exact Hall | exact Hstop | | exact I | reflexivity].
    cbn [takeWhile]. rewrite Hc. cbn [length]. lia.
  - cbn [m_caps app]. f_equal. apply (take_app_diff (cd :: d)).
Qed.

Lemma forallb_take (p : char -> bool) (n : nat) (a : jsstring) :
  forallb p a = true -> forallb p (take n a) = true.
Proof.
  revert n. induction a as [|c a IH]; intros [|n] H; try reflexivity.
  cbn [forallb take] in *. apply andb_true_iff in H as [Hc Ha].
  by rewrite Hc, IH.
Qed.

Lemma forallb_drop (p : char -> bool) (n : nat) (a : jsstring) :
  forallb p a = true -> forallb p (drop n a) = true.
Proof.
  revert n. induction a as [|c a IH]; intros [|n] H; try reflexivity;
    [exact H|].
  cbn [forallb drop] in *. apply andb_true_iff in H as [Hc Ha]. by apply IH.
Qed.

Lemma lastor_forallb (p : char -> bool) (a : jsstring) :
  forall prv,
    a <> [] -> forallb p a = true ->
    exists c, lastor prv a = Some c /\ p c = true.
Proof.
  induction a as [|x a IH]; intros prv Hne H; [done|].
  cbn [forallb] in H. apply andb_true_iff in H as [Hx Ha].
  destruct a as [|y a].
  - exists x. by split.
  - cbn [lastor]. apply (IH (Some x)); [discriminate | exact Ha].
Qed.

Lemma ws_not_hash_all (a : jsstring) :
  forallb isWhiteSpace a = true ->
  forallb (fun c => negb (isHash c)) a = true.
Proof.
  apply forallb_imp. intros c Hc. by rewrite (ws_not_hash c Hc).
Qed.

Lemma digit_not_hash_all (a : jsstring) :
  forallb isDigit a = true ->
  forallb (fun c => negb (isHash c)) a = true.
Proof.
  apply forallb_imp. intros c Hc. by rewrite (digit_not_hash c Hc).
Qed.

(** What a match of the Cross-Reference pattern looks like: one or two
    heading markers, then characters that are not the marker. *)
Lemma crossref_heading_shape prv s e :
  match_here CrossRef.sectionRegex prv s = Some e ->
  exists h m,
    s = h ++ m ++ m_rest e /\
    forallb isHash h = true /\ 1 <= length h /\
    forallb (fun c => negb (isHash c)) m = true.
Proof.
  unfold match_here, CrossRef.sectionRegex, CrossRef.numberPattern.
  cbn [rseq foldr rmatch m_prev m_rest m_caps].
  intros H.
  destruct (at_bol _) eqn:Hb; [|discriminate].
  apply rep_sound in H as (h & s1 & -> & Hh & Hh1 & _ & H).
  cbn [m_prev m_rest m_caps] in H.
  apply rep_sound in H as (w & s2 & -> & Hw & _ & _ & H).
  cbn [m_prev m_rest m_caps] in H.
  apply rep_sound in H as (d & s3 & -> & Hd & _ & _ & H).
  cbn [m_prev m_rest m_caps] in H.
  pose proof (ws_not_hash_all w Hw) as Hw'.
  pose proof (digit_not_hash_all d Hd) as Hd'.
  destruct s3 as [|c0 s4]; [discriminate|].
  destruct (isPeriod c0) eqn:Hdot; [|discriminate].
  apply N.eqb_eq in Hdot. subst c0.
  match type of H with
  | match ?opt with Some _ => _ | None => _ end = _ =>
      destruct opt as [e0|] eqn:Hopt
  end.
  - injection H as ->.
    apply rep_sound in Hopt as (d2 & s5 & -> & Hd2 & _ & _ & H).
    cbn [m_prev m_rest m_caps] in H.
    destruct s5 as [|c1 s6]; [discriminate|].
    destruct (isPeriod c1) eqn:Hdot; [|discriminate].
    apply N.eqb_eq in Hdot. subst c1.
    apply rep_sound in H as (w4 & s7 & -> & Hw4 & _ & _ & H).
    injection H as <-. cbn [m_rest].
    exists h, (w ++ d ++ chr "." :: d2 ++ chr "." :: w4).
    split; [by repeat (progress (rewrite <- ?app_assoc; cbn [app]))|].
    split; [exact Hh|]. split; [exact Hh1|].
    rewrite !forallb_app. cbn [forallb]. rewrite !forallb_app. cbn [forallb].
    rewrite Hw', Hd', (digit_not_hash_all d2 Hd2), (ws_not_hash_all w4 Hw4).
    reflexivity.
  - apply rep_sound in H as (w4 & s7 & -> & Hw4 & _ & _ & H).
    injection H as <-. cbn [m_rest].
    exists h, (w ++ d ++ chr "." :: w4).
    split; [by repeat (progress (rewrite <- ?app_assoc; cbn [app]))|].
    split; [exact Hh|]. split; [exact Hh1|].
    rewrite !forallb_app. cbn [forallb].
    rewrite Hw', Hd', (ws_not_hash_all w4 Hw4).
    reflexivity.
Qed.

(** Inside a match of the Cross-Reference pattern no other match of it
    starts. *)
Lemma crossref_no_overlap : NoOverlap CrossRef.sectionRegex.
Proof.
  intros prv s e He pre suf Hs Hlen.
  destruct (crossref_heading_shape prv s e He) as (h & m & Hsm & Hh & Hh1 & Hm).
  unfold match_len in Hlen. set (rest := m_rest e) in *. clearbody rest.
  clear He.
  assert (Hlen' : 0 < length pre < length h + length m).
  { rewrite Hsm in Hlen. rewrite !length_app in Hlen. lia. }
  assert (Heq : pre ++ suf = h ++ m ++ rest) by congruence.
  clear Hlen Hs Hsm. rename Hlen' into Hlen.
  assert (Hpre : pre = take (length pre) (h ++ m ++ rest)).
  { rewrite <- Heq. by rewrite take_app_length. }
  assert (Hsuf : suf = drop (length pre) (h ++ m ++ rest)).
  { rewrite <- Heq. by rewrite drop_app_length. }
  unfold match_here, CrossRef.sectionRegex.
  cbn [rseq foldr rmatch m_prev m_rest m_caps].
  destruct (decide (length pre < length h)) as [Hin|Hout].
  - rewrite take_app_le in Hpre by lia.
    assert (Hall : forallb isHash pre = true).
    { rewrite Hpre. by apply forallb_take. }
    assert (Hne : pre <> []) by (intros ->; cbn [length] in Hlen; lia).
    destruct (lastor_forallb isHash pre prv Hne Hall) as (c & Hc & Hhash).
    apply N.eqb_eq in Hhash. subst c.
    unfold at_bol. cbn [m_prev]. rewrite Hc. reflexivity.
  - rewrite drop_app_ge in Hsuf by lia.
    rewrite drop_app_le in Hsuf by lia.
    pose proof (forallb_drop _ (length pre - length h) m Hm) as Hd.
    destruct (drop (length pre - length h) m) as [|c t] eqn:Hdrop.
    + apply (f_equal length) in Hdrop. rewrite length_drop in Hdrop.
      cbn [length] in Hdrop. lia.
    + cbn [forallb] in Hd. apply andb_true_iff in Hd as [Hc _].
      apply negb_true_iff in Hc. rewrite Hsuf. cbn [app].
      destruct (at_bol _); [|reflexivity].
      by apply rep_one_fails.
Qed.

Lemma dropWhile_app (p : char -> bool) (a b : jsstring) :
  forallb p a = true -> stops p b = true -> dropWhile p (a ++ b) = b.
Proof.
  intros Ha Hb. induction a as [|c a IH].
  - destruct b as [|x b]; [reflexivity|].
    cbn [app dropWhile stops] in *. apply negb_true_iff in Hb. by rewrite Hb.
  - cbn [forallb] in Ha. apply andb_true_iff in Ha as [Hc Ha].
    cbn [app dropWhile]. rewrite Hc. by apply IH.
Qed.

Lemma takeWhile_app (p : char -> bool) (a b : jsstring) :
  forallb p a = true -> stops p b = true -> takeWhile p (a ++ b) = a.
Proof.
  intros Ha Hb. induction a as [|c a IH].
  - destruct b as [|x b]; [reflexivity|].
    cbn [app takeWhile stops] in *. apply negb_true_iff in Hb. by rewrite Hb.
  - cbn [forallb] in Ha. apply andb_true_iff in Ha as [Hc Ha].
    cbn [app takeWhile]. rewrite Hc. f_equal. by apply IH.
Qed.

(** The number of a heading of the shape the Template pattern matches. *)
Lemma headingNumber_shape h w d x :
  forallb isHash h = true ->
  forallb isWhiteSpace w = true -> 1 <= length w ->
  forallb isDigit d = true -> 1 <= length d ->
  Spec.headingNumber (h ++ w ++ d ++ chr "." :: x) = d.
Proof.
  intros Hh Hw Hw1 Hd Hd1. unfold Spec.headingNumber.
  destruct w as [|cw w]; [cbn [length] in Hw1; lia|].
  destruct d as [|cd d]; [cbn [length] in Hd1; lia|].
  pose proof Hw as Hw'. cbn [forallb] in Hw'.
  apply andb_true_iff in Hw' as [Hcw _].
  pose proof Hd as Hd'. cbn [forallb] in Hd'.
  apply andb_true_iff in Hd' as [Hcd _].
  rewrite (dropWhile_app isHash h); [|exact Hh|].
  2: { cbn [app stops]. by rewrite (ws_not_hash cw Hcw). }
  rewrite (dropWhile_app isWhiteSpace (cw :: w)); [|exact Hw|].
  2: { cbn [app stops]. by rewrite (digit_not_ws cd Hcd). }
  apply takeWhile_app; [exact Hd | reflexivity].
Qed.

(** Membership in the set the first loop of [validateCrossRefs] builds. *)
Lemma elem_of_existing (x : jsstring) (ms : list Match) :
  forall acc : gset jsstring,
    x ∈ foldl (fun acc m => acc ∪ {[ CrossRef.group1 m ]}) acc ms <->
    x ∈ acc \/ exists m, m ∈ ms /\ CrossRef.group1 m = x.
Proof.
  induction ms as [|m ms IH]; intros acc.
  - cbn [foldl]. split; [by left|].
    intros [H | (m & Hm & _)]; [exact H | by apply elem_of_nil in Hm].
  - cbn [foldl]. rewrite IH. rewrite elem_of_union, elem_of_singleton. split.
    + intros [[H | H] | (m' & Hm' & Hg)].
      * by left.
      * right. exists m. split; [by apply elem_of_cons; left | done].
      * right. exists m'. split; [by apply elem_of_cons; right | done].
    + intros [H | (m' & Hm' & Hg)].
      * by left; left.
      * apply elem_of_cons in Hm' as [-> | Hm'].
        -- left. right. done.
        -- right. by exists m'.
Qed.

Lemma template_numbers_in_crossref (text n : jsstring) :
  n ∈ Spec.templateSectionNumbers text -> n ∈ CrossRef.existingSections text.
Proof.
  unfold Spec.templateSectionNumbers, CrossRef.existingSections.
  rewrite elem_of_list_to_set, list_elem_of_fmap.
  intros (m & -> & Hm).
  apply elem_of_existing. right.
  unfold matchAll in Hm.
  apply scan_sound in Hm as (pre & suf & e & Htext & _ & He & ->).
  destruct (template_heading_shape _ _ _ He)
    as (Hb & h & w & d & c & u & Hsuf & Hh & Hh1 & Hw & Hw1 & Hd & Hd1 & Hc).
  assert (Hmatched : matched (mk_match (0 + length pre) suf e)
                     = h ++ w ++ d ++ chr "." :: c :: u).
  { cbn [matched mk_match]. unfold match_len.
    rewrite Hsuf.
    replace (h ++ w ++ d ++ chr "." :: c :: u ++ m_rest e)
      with ((h ++ w ++ d ++ chr "." :: c :: u) ++ m_rest e)
      by (by repeat (progress (rewrite <- ?app_assoc; cbn [app]))).
    apply take_app_diff. }
  rewrite Hmatched, (headingNumber_shape h w d (c :: u) Hh Hw Hw1 Hd Hd1).
  rewrite Hsuf in Hb.
  destruct (crossref_matches_heading _ h w d c (u ++ m_rest e)
              Hb Hh Hh1 Hw Hw1 Hd Hd1 Hc) as (e' & He' & Hcaps).
  rewrite <- Hsuf in He'.
  exists (mk_match (0 + length pre) suf e'). split.
  - unfold matchAll.
    apply (scan_complete _ crossref_no_overlap text None 0 0 pre suf e');
      [exact Htext | lia | exact He'].
  - unfold CrossRef.group1. cbn [groups mk_match]. by rewrite Hcaps.
Qed.

(** The numbers the Template pattern recognizes are integers. *)
Lemma template_numbers_digits (text n : jsstring) :
  n ∈ Spec.templateSectionNumbers text ->
  n <> [] /\ forallb isDigit n = true.
Proof.
  unfold Spec.templateSectionNumbers.
  rewrite elem_of_list_to_set, list_elem_of_fmap.
  intros (m & -> & Hm). unfold matchAll in Hm.
  apply scan_sound in Hm as (pre & suf & e & Htext & _ & He & ->).
  destruct (template_heading_shape _ _ _ He)
    as (Hb & h & w & d & c & u & Hsuf & Hh & Hh1 & Hw & Hw1 & Hd & Hd1 & Hc).
  assert (Hmatched : matched (mk_match (0 + length pre) suf e)
                     = h ++ w ++ d ++ chr "." :: c :: u).
  { cbn [matched mk_match]. unfold match_len.
    rewrite Hsuf.
    replace (h ++ w ++ d ++ chr "." :: c :: u ++ m_rest e)
      with ((h ++ w ++ d ++ chr "." :: c :: u) ++ m_rest e)
      by (by repeat (progress (rewrite <- ?app_assoc; cbn [app]))).
    apply take_app_diff. }
  rewrite Hmatched, (headingNumber_shape h w d (c :: u) Hh Hw Hw1 Hd Hd1).
  split; [|exact Hd]. intros ->. cbn [length] in Hd1. lia.
Qed.

End HeadingFacts.

(** C4, as the code has it (amended).  Every section number the section
    parse of the Template Validator recognizes is in the set the
    Cross-Reference Validator collects, and it is an integer.  The
    converse fails: the Cross-Reference pattern also accepts a dotted
    number and a heading without a title, which the Template pattern
    does not match or takes as part of another heading. *)
Theorem template_numbers_subset_crossref :
  (forall text n,
      n ∈ Spec.templateSectionNumbers text ->
      n ∈ CrossRef.existingSections text) /\
  (forall text n,
      n ∈ Spec.templateSectionNumbers text ->
      n <> [] /\ forallb isDigit n = true) /\
  CrossRef.existingSections Sample.dotted_heading = {[ js "1.2" ]} /\
  Spec.templateSectionNumbers Sample.dotted_heading = ∅ /\
  CrossRef.existingSections Sample.untitled_heading = {[ js "1"; js "2" ]} /\
  Spec.templateSectionNumbers Sample.untitled_heading = {[ js "1" ]}.
Proof.
  split; [|split].
  - apply HeadingFacts.template_numbers_in_crossref.
  - apply HeadingFacts.template_numbers_digits.
  - repeat split; apply bool_decide_eq_true_1; vm_compute; reflexivity.
Qed.

Lemma template_numbers_subset_crossref_witness :
  js "1" ∈ Spec.templateSectionNumbers Sample.untitled_heading /\
  js "1" ∈ CrossRef.existingSections Sample.untitled_heading /\
  forallb isDigit (js "1") = true.
Proof.
  assert (H : js "1" ∈ Spec.templateSectionNumbers Sample.untitled_heading).
  { refine (bool_decide_unpack _ _). vm_compute. exact I. }
  split; [exact H|]. split.
  - exact (proj1 template_numbers_subset_crossref _ _ H).
  - exact (proj2 (proj1 (proj2 template_numbers_subset_crossref) _ _ H)).
Defined.

(** C4 as stated fails: for the heading "## 1.2. Overview" the
    Cross-Reference Validator collects the number "1.2", and the section
    parse of the Template Validator recognizes no section at all. *)
Lemma section_sets_differ_counterexample :
  CrossRef.existingSections Sample.dotted_heading
  <> Spec.templateSectionNumbers Sample.dotted_heading.
Proof.
  intros H. pose proof (bool_decide_pack _ H) as Hb. revert Hb.
  vm_compute. exact (fun x => x).
Qed.
